(** * Tabular TD control (SARSA, SARSAMAX, Expected SARSA): model and properties

    A shallow embedding of the three notebooks of td-methods:
    - SARSA            (1.sarsa.ipynb, first notebook),
    - SARSAMAX         (the Part 2 notebook),
    - Expected SARSA   (1.sarsa.ipynb, Part 3 notebook).

    Conventions of the embedding.
    - Numbers.  numpy float64 values and Python floats are idealised as exact
      rationals [Q]; value equality is [Qeq] ([==]).  Rounding, infinities
      and NaN are outside the model.
    - The action-value table is a [collections.defaultdict] whose factory is
      [lambda: np.zeros(env.action_space.n)]; it is a record holding the
      factory's length and a [gmap] from keys to rows.  Keys are environment
      states or Python's [None], hence [option Z].
    - Reading [Q[k]] on a defaultdict inserts a fresh row when [k] is absent;
      every function that touches the table therefore threads it as state.
    - Exceptions are values of [exn]; the [while True] loop of the episode
      runner is given fuel, and an exhausted budget is reported separately
      as [OutOfFuel].
    - Console output ([print], [sys.stdout.flush]) has no effect on any
      returned value and is left out. *)

From Stdlib Require Import QArith Qround Lqa ZArith Lia.
From stdpp Require Import gmap list.

Local Open Scope Q_scope.

(** ** Results and the state-and-exception monad *)

Inductive exn : Type :=
| IndexError
| ValueError
| ZeroDivisionError.

Inductive result (A : Type) : Type :=
| Ok (a : A)
| Raise (e : exn)
| OutOfFuel.

Arguments Ok {A} a.
Arguments Raise {A} e.
Arguments OutOfFuel {A}.

Definition M (S A : Type) : Type := S -> result (A * S).

Definition ret {S A} (a : A) : M S A := fun s => Ok (a, s).

Definition bind {S A B} (m : M S A) (k : A -> M S B) : M S B :=
  fun s => match m s with
           | Ok (a, s') => k a s'
           | Raise e => Raise e
           | OutOfFuel => OutOfFuel
           end.

Definition raise {S A} (e : exn) : M S A := fun _ => Raise e.

Definition lift_result {S A} (r : result A) : M S A :=
  fun s => match r with
           | Ok a => Ok (a, s)
           | Raise e => Raise e
           | OutOfFuel => OutOfFuel
           end.

Declare Scope py_scope.
Delimit Scope py_scope with py.
Notation "'let!' x ':=' c 'in' k" := (bind c (fun x => k))
  (at level 10, x pattern, c at level 100, k at level 200) : py_scope.
Local Open Scope py_scope.

(** ** Numbers: comparisons, Python's [max], sums *)

Definition Qltb (x y : Q) : bool := negb (Qle_bool y x).

(** Python's [max(a, b)]: the first argument unless the second is strictly
    larger. *)
Definition py_max (a b : Q) : Q := if Qltb a b then b else a.

Definition sumQ (l : list Q) : Q := fold_right Qplus 0 l.

(** ** numpy arrays as lists *)

Abbreviation State := Z (only parsing).
Abbreviation Action := nat (only parsing).

(** [np.zeros(n)]: negative dimensions are rejected. *)
Definition np_zeros (n : Z) : result (list Q) :=
  if (n <? 0)%Z then Raise ValueError else Ok (replicate (Z.to_nat n) 0).

(** [np.ones(n)]. *)
Definition np_ones (n : Z) : result (list Q) :=
  if (n <? 0)%Z then Raise ValueError else Ok (replicate (Z.to_nat n) 1).

(** [v[i]] for a non-negative integer index. *)
Definition np_index (v : list Q) (i : Action) : result Q :=
  match v !! i with
  | Some x => Ok x
  | None => Raise IndexError
  end.

(** [v[i] = x], in place. *)
Definition np_setitem (v : list Q) (i : Action) (x : Q) : result (list Q) :=
  if decide (i < length v)%nat then Ok (<[i := x]> v) else Raise IndexError.

(** [np.argmax(v)]: index of the first maximal element; empty input is a
    [ValueError]. *)
Fixpoint argmax_aux (l : list Q) (i : nat) (best : Q) (besti : nat) : nat :=
  match l with
  | [] => besti
  | x :: t => if Qltb best x then argmax_aux t (S i) x i
              else argmax_aux t (S i) best besti
  end.

Definition np_argmax (v : list Q) : result Action :=
  match v with
  | [] => Raise ValueError
  | x :: t => Ok (argmax_aux t 1 x 0)
  end.

(** [np.dot(a, b)] on one-dimensional arrays. *)
Definition np_dot (a b : list Q) : result Q :=
  if decide (length a = length b)
  then Ok (sumQ (zip_with Qmult a b))
  else Raise ValueError.

(** [np.mean] of a sequence. *)
Definition np_mean (l : list Q) : Q := sumQ l / inject_Z (Z.of_nat (length l)).

(** ** The action-value table: [defaultdict(lambda: np.zeros(nA))] *)

Record defaultdict : Type := {
  zeros_n : Z;                          (* env.action_space.n seen by the factory *)
  items : gmap (option Z) (list Q)
}.

Definition new_table (n : Z) : defaultdict := {| zeros_n := n; items := ∅ |}.

(** [Q[k]]: the stored row, or a fresh zero row which is stored first. *)
Definition getitem (k : option Z) : M defaultdict (list Q) :=
  fun d => match items d !! k with
           | Some v => Ok (v, d)
           | None =>
               match np_zeros (zeros_n d) with
               | Ok v => Ok (v, {| zeros_n := zeros_n d; items := <[k := v]> (items d) |})
               | Raise e => Raise e
               | OutOfFuel => OutOfFuel
               end
           end.

(** [Q[k][a]] as an expression. *)
Definition getitem2 (k : option Z) (a : Action) : M defaultdict Q :=
  let! v := getitem k in lift_result (np_index v a).

(** [Q[k][a] = x] once [x] has been evaluated: [Q[k]] is looked up (and
    created when absent), then its row is written in place. *)
Definition setitem2 (k : option Z) (a : Action) (x : Q) : M defaultdict unit :=
  let! v := getitem k in
  let! v' := lift_result (np_setitem v a x) in
  fun d => Ok (tt, {| zeros_n := zeros_n d; items := <[k := v']> (items d) |}).

(** The statement [Q[state][action] = <rhs>]: right-hand side first. *)
Definition assign_Q (state : State) (action : Action) (rhs : M defaultdict Q)
  : M defaultdict unit :=
  let! x := rhs in setitem2 (Some state) action x.

(** What a later read [Q[k][a]] would observe, without touching the table:
    the stored row, or the zero row the factory would create. *)
Definition row (d : defaultdict) (k : option Z) : list Q :=
  match items d !! k with
  | Some v => v
  | None => replicate (Z.to_nat (zeros_n d)) 0
  end.

Definition peek (d : defaultdict) (k : option Z) (a : Action) : option Q :=
  row d k !! a.

(** Module-level names the update functions read without receiving them as
    parameters. *)
Record Globals : Type := { reward : Q }.

(** ** Randomness, the environment, and the state of a run *)

(** [np.random]: a tape of uniform draws in [0, 1) and a tape of raw integer
    draws, read at a common cursor. *)
Record RandomState : Type := {
  uniform : nat -> Q;
  integers : nat -> Z;
  cursor : nat
}.

(** The environment collaborator: [env.action_space.n], [env.reset()] and
    [env.step(action)] (the unused [info] component is dropped). *)
Record Env (E : Type) : Type := {
  action_space_n : Z;
  env_reset : E -> State * E;
  env_step : Action -> E -> (State * Q * bool) * E
}.

Arguments action_space_n {E} _.
Arguments env_reset {E} _ _.
Arguments env_step {E} _ _ _.

Record World (E : Type) : Type := {
  table : defaultdict;
  random : RandomState;
  env_state : E
}.

Arguments table {E} _.
Arguments random {E} _.
Arguments env_state {E} _.

Section Run.
Context {E : Type}.

(** Run a table computation inside the world. *)
Definition on_table {A} (m : M defaultdict A) : M (World E) A :=
  fun w => match m (table w) with
           | Ok (a, d) =>
               Ok (a, {| table := d; random := random w; env_state := env_state w |})
           | Raise e => Raise e
           | OutOfFuel => OutOfFuel
           end.

(** [np.random.rand()]. *)
Definition np_random_rand : M (World E) Q :=
  fun w =>
    let r := random w in
    Ok (uniform r (cursor r),
        {| table := table w;
           random := {| uniform := uniform r; integers := integers r;
                        cursor := S (cursor r) |};
           env_state := env_state w |}).

(** [np.random.randint(n)]: an integer in [0, n); [n <= 0] is rejected. *)
Definition np_random_randint (n : Z) : M (World E) Action :=
  fun w =>
    if (n <=? 0)%Z then Raise ValueError
    else
      let r := random w in
      Ok (Z.to_nat (integers r (cursor r) mod n),
          {| table := table w;
             random := {| uniform := uniform r; integers := integers r;
                          cursor := S (cursor r) |};
             env_state := env_state w |}).

Definition reset (env : Env E) : M (World E) State :=
  fun w =>
    let '(s, e) := env_reset env (env_state w) in
    Ok (s, {| table := table w; random := random w; env_state := e |}).

Definition step (env : Env E) (action : Action) : M (World E) (State * Q * bool) :=
  fun w =>
    let '(o, e) := env_step env action (env_state w) in
    Ok (o, {| table := table w; random := random w; env_state := e |}).

(** The three notebooks define the same selector:
<<
  def eps_greedy(eps, Q, state, nA):
      rand = np.random.rand()
      if rand < eps:
          return np.random.randint(nA)
      else:
          return np.argmax(Q[state])
>> *)
Definition eps_greedy (eps : Q) (state : State) (nA : Z) : M (World E) Action :=
  let! rand := np_random_rand in
  if Qltb rand eps then np_random_randint nA
  else on_table (let! v := getitem (Some state) in lift_result (np_argmax v)).

(** [collections.deque(maxlen=n)] kept as a list, oldest element first. *)
Definition deque_new (maxlen : Z) : M (World E) (list Q) :=
  if (maxlen <? 0)%Z then raise ValueError else ret [].

(** [dq.append(x)]: once full, the oldest element is dropped. *)
Definition deque_append (maxlen : Z) (dq : list Q) (x : Q) : list Q :=
  let l := dq ++ [x] in drop (length l - Z.to_nat maxlen) l.

End Run.

(** ** The exploration schedule of [train]: [eps = max(eps * eps_decay, eps_min)] *)

Definition decay_eps (eps_decay eps_min eps : Q) : Q :=
  py_max (eps * eps_decay) eps_min.

(** ** The training loop, shared by the three notebooks

<<
    def train(env, num_episodes, eps=1.0, eps_min=0.01, eps_decay=0.9,
              alpha=0.01, gamma=1.0, plot_every=100):
        Q = defaultdict(lambda: np.zeros(env.action_space.n))
        ...
        all_rewards = []
        tmp_rewards = deque(maxlen=plot_every)
        avg_rewards = deque(maxlen=num_episodes)
        for i in range(1, num_episodes + 1):
            eps = max(eps * eps_decay, eps_min)
            Q, score = generate_sarsa_episode(env, Q, eps, alpha, gamma)
            all_rewards.append(score)
            tmp_rewards.append(score)
            ...
            if i % plot_every == 0:
                avg_rewards.append(np.mean(tmp_rewards))
        return Q, all_rewards, avg_rewards
>>
    The text of [train] is the same in the three notebooks; only the
    [generate_sarsa_episode] it calls differs, so the runner is a parameter
    here (already applied to [env], [alpha], [gamma]).  [print_every] is
    always positive and only guards printing. *)

Section Train.
Context {E : Type}.
Variable episode : Q -> M (World E) Q.
Variables eps_min eps_decay : Q.
Variables num_episodes plot_every : Z.

Fixpoint train_loop (n : nat) (i : Z) (eps : Q)
    (all_rewards tmp_rewards avg_rewards : list Q)
  : M (World E) (list Q * list Q) :=
  match n with
  | O => ret (all_rewards, avg_rewards)
  | S n' =>
      let eps := decay_eps eps_decay eps_min eps in
      let! score := episode eps in
      let all_rewards := all_rewards ++ [score] in
      let tmp_rewards := deque_append plot_every tmp_rewards score in
      if (plot_every =? 0)%Z then raise ZeroDivisionError
      else
        let avg_rewards :=
          if (i mod plot_every =? 0)%Z
          then deque_append num_episodes avg_rewards (np_mean tmp_rewards)
          else avg_rewards in
        train_loop n' (i + 1)%Z eps all_rewards tmp_rewards avg_rewards
  end.

Definition train_with (nA : Z) (eps : Q)
  : M (World E) (defaultdict * list Q * list Q) :=
  let! _ := (fun w => Ok (tt, {| table := new_table nA; random := random w;
                                 env_state := env_state w |})) in
  let all_rewards := [] in
  let! tmp_rewards := deque_new plot_every in
  let! avg_rewards := deque_new num_episodes in
  let! (all_rewards, avg_rewards) :=
    train_loop (Z.to_nat num_episodes) 1%Z eps all_rewards tmp_rewards avg_rewards in
  fun w => Ok ((table w, all_rewards, avg_rewards), w).

End Train.

(** ** SARSA (1.sarsa.ipynb, Part 1) *)

Module Sarsa.

(**
<<
  def update_sarsa_Q(alpha, gamma, Q, state, action, next_state=None, next_action=None):
      Qsa = Q[next_state][next_action] if next_state is not None else 0
      updated_q_value = Q[state][action] + alpha * (reward + gamma * Qsa - Q[state][action])
      return updated_q_value
>>
    The two optional parameters are passed together or omitted together,
    hence one optional pair.  [bootstrap] is the value bound to [Qsa]. *)
Definition bootstrap (next : option (State * Action)) : M defaultdict Q :=
  match next with
  | Some (next_state, next_action) => getitem2 (Some next_state) next_action
  | None => ret 0
  end.

Definition update_sarsa_Q (g : Globals) (alpha gamma : Q)
    (state : State) (action : Action) (next : option (State * Action))
  : M defaultdict Q :=
  let! Qsa := bootstrap next in
  let! q1 := getitem2 (Some state) action in
  let! q2 := getitem2 (Some state) action in
  ret (q1 + alpha * (reward g + gamma * Qsa - q2)).

(**
<<
    def generate_sarsa_episode(env, Q, eps, alpha, gamma):
        nA = env.action_space.n
        state = env.reset()
        action = eps_greedy(eps, Q, state, nA)
        score = 0
        while True:
            next_state, reward, done, info = env.step(action)
            score += reward
            next_action = eps_greedy(eps, Q, next_state, nA)
            if not done:
                Q[state][action] = update_sarsa_Q(alpha, gamma, Q, state, action, next_state, next_action)
                state = next_state
                action = next_action
            if done:
                Q[state][action] = update_sarsa_Q(alpha, gamma, Q, state, action)
                break
        return Q, score
>>
    The [reward] bound inside the runner is local to it (written [r] below);
    [update_sarsa_Q] reads the module-level [reward] of [g]. *)
Fixpoint episode_loop {E} (fuel : nat) (env : Env E) (g : Globals)
    (eps alpha gamma : Q) (nA : Z) (state : State) (action : Action) (score : Q)
  : M (World E) Q :=
  match fuel with
  | O => fun _ => OutOfFuel
  | S fuel' =>
      let! (next_state, r, done) := step env action in
      let score := score + r in
      let! next_action := eps_greedy eps next_state nA in
      if negb done then
        let! _ := on_table (assign_Q state action
                    (update_sarsa_Q g alpha gamma state action
                       (Some (next_state, next_action)))) in
        episode_loop fuel' env g eps alpha gamma nA next_state next_action score
      else
        let! _ := on_table (assign_Q state action
                    (update_sarsa_Q g alpha gamma state action None)) in
        ret score
  end.

Definition generate_sarsa_episode {E} (fuel : nat) (env : Env E) (g : Globals)
    (eps alpha gamma : Q) : M (World E) Q :=
  let nA := action_space_n env in
  let! state := reset env in
  let! action := eps_greedy eps state nA in
  episode_loop fuel env g eps alpha gamma nA state action 0.

Definition train {E} (fuel : nat) (env : Env E) (g : Globals) (num_episodes : Z)
    (eps eps_min eps_decay alpha gamma : Q) (plot_every : Z)
  : M (World E) (defaultdict * list Q * list Q) :=
  train_with (fun eps => generate_sarsa_episode fuel env g eps alpha gamma)
    eps_min eps_decay num_episodes plot_every (action_space_n env) eps.

End Sarsa.

(** ** SARSAMAX (Part 2 notebook) *)

Module Sarsamax.

(**
<<
  def update_sarsa_Q(alpha, gamma, Q, state, action, next_state=None):
      next_action = np.argmax(Q[next_state])
      Qsa = Q[next_state][next_action] if next_state is not None else 0
      updated_q_value = Q[state][action] + alpha * (reward + gamma * Qsa - Q[state][action])
      return updated_q_value
>>
    [Q[next_state]] on the first line is evaluated whether or not
    [next_state] is [None].  [bootstrap] is the value bound to [Qsa]. *)
Definition bootstrap (next_state : option State) : M defaultdict Q :=
  let! v := getitem next_state in
  let! next_action := lift_result (np_argmax v) in
  match next_state with
  | Some ns => getitem2 (Some ns) next_action
  | None => ret 0
  end.

Definition update_sarsa_Q (g : Globals) (alpha gamma : Q)
    (state : State) (action : Action) (next_state : option State)
  : M defaultdict Q :=
  let! Qsa := bootstrap next_state in
  let! q1 := getitem2 (Some state) action in
  let! q2 := getitem2 (Some state) action in
  ret (q1 + alpha * (reward g + gamma * Qsa - q2)).

(**
<<
    def generate_sarsa_episode(env, Q, eps, alpha, gamma):
        nA = env.action_space.n
        state = env.reset()
        score = 0
        while True:
            action = eps_greedy(eps, Q, state, nA)
            next_state, reward, done, info = env.step(action)
            score += reward

            if not done:
                Q[state][action] = update_sarsa_Q(alpha, gamma, Q, state, action, next_state)
                state = next_state

            if done:
                Q[state][action] = update_sarsa_Q(alpha, gamma, Q, state, action)
                break
        return Q, score
>> *)
Fixpoint episode_loop {E} (fuel : nat) (env : Env E) (g : Globals)
    (eps alpha gamma : Q) (nA : Z) (state : State) (score : Q)
  : M (World E) Q :=
  match fuel with
  | O => fun _ => OutOfFuel
  | S fuel' =>
      let! action := eps_greedy eps state nA in
      let! (next_state, r, done) := step env action in
      let score := score + r in
      if negb done then
        let! _ := on_table (assign_Q state action
                    (update_sarsa_Q g alpha gamma state action (Some next_state))) in
        episode_loop fuel' env g eps alpha gamma nA next_state score
      else
        let! _ := on_table (assign_Q state action
                    (update_sarsa_Q g alpha gamma state action None)) in
        ret score
  end.

Definition generate_sarsa_episode {E} (fuel : nat) (env : Env E) (g : Globals)
    (eps alpha gamma : Q) : M (World E) Q :=
  let nA := action_space_n env in
  let! state := reset env in
  episode_loop fuel env g eps alpha gamma nA state 0.

Definition train {E} (fuel : nat) (env : Env E) (g : Globals) (num_episodes : Z)
    (eps eps_min eps_decay alpha gamma : Q) (plot_every : Z)
  : M (World E) (defaultdict * list Q * list Q) :=
  train_with (fun eps => generate_sarsa_episode fuel env g eps alpha gamma)
    eps_min eps_decay num_episodes plot_every (action_space_n env) eps.

End Sarsamax.

(** ** Expected SARSA (1.sarsa.ipynb, Part 3) *)

Module ExpectedSarsa.

(**
<<
      policy = np.ones(nA) * eps/nA
      policy[np.argmax(Q[next_state])] = 1 - eps + eps/nA
>>
    The right-hand side [1 - eps + eps/nA] is a Python float expression and
    is evaluated before the subscript; with [nA = 0] it raises
    [ZeroDivisionError].  [policy_vector] is the array bound to [policy]
    once its greedy entry has been set. *)
Definition greedy_mass (eps : Q) (nA : Z) : result Q :=
  if (nA =? 0)%Z then Raise ZeroDivisionError
  else Ok (1 - eps + eps / inject_Z nA).

Definition policy_vector (eps : Q) (nA : Z) (next_state : State)
  : M defaultdict (list Q) :=
  let! ones := lift_result (np_ones nA) in
  let policy := map (fun one => one * eps / inject_Z nA) ones in
  let! mass := lift_result (greedy_mass eps nA) in
  let! v := getitem (Some next_state) in
  let! best := lift_result (np_argmax v) in
  lift_result (np_setitem policy best mass).

(**
<<
  def update_sarsa_Q(eps, nA, alpha, gamma, Q, state, action, next_state=None):
      if next_state is not None:
          policy = ...
          Qsa = np.dot(Q[next_state], policy)
      else:
          Qsa = 0
      updated_q_value = Q[state][action] + alpha * (reward + gamma * Qsa - Q[state][action])
      return updated_q_value
>>
    [bootstrap] is the value bound to [Qsa]. *)
Definition bootstrap (eps : Q) (nA : Z) (next_state : option State)
  : M defaultdict Q :=
  match next_state with
  | Some ns =>
      let! policy := policy_vector eps nA ns in
      let! v := getitem (Some ns) in
      lift_result (np_dot v policy)
  | None => ret 0
  end.

Definition update_sarsa_Q (g : Globals) (eps : Q) (nA : Z) (alpha gamma : Q)
    (state : State) (action : Action) (next_state : option State)
  : M defaultdict Q :=
  let! Qsa := bootstrap eps nA next_state in
  let! q1 := getitem2 (Some state) action in
  let! q2 := getitem2 (Some state) action in
  ret (q1 + alpha * (reward g + gamma * Qsa - q2)).

(** The runner has the text of the SARSAMAX one, with [eps] and [nA] passed
    on to the update:
<<
            if not done:
                Q[state][action] = update_sarsa_Q(eps, nA, alpha, gamma, Q, state, action, next_state)
                state = next_state
            if done:
                Q[state][action] = update_sarsa_Q(eps, nA, alpha, gamma, Q, state, action)
                break
>> *)
Fixpoint episode_loop {E} (fuel : nat) (env : Env E) (g : Globals)
    (eps alpha gamma : Q) (nA : Z) (state : State) (score : Q)
  : M (World E) Q :=
  match fuel with
  | O => fun _ => OutOfFuel
  | S fuel' =>
      let! action := eps_greedy eps state nA in
      let! (next_state, r, done) := step env action in
      let score := score + r in
      if negb done then
        let! _ := on_table (assign_Q state action
                    (update_sarsa_Q g eps nA alpha gamma state action
                       (Some next_state))) in
        episode_loop fuel' env g eps alpha gamma nA next_state score
      else
        let! _ := on_table (assign_Q state action
                    (update_sarsa_Q g eps nA alpha gamma state action None)) in
        ret score
  end.

Definition generate_sarsa_episode {E} (fuel : nat) (env : Env E) (g : Globals)
    (eps alpha gamma : Q) : M (World E) Q :=
  let nA := action_space_n env in
  let! state := reset env in
  episode_loop fuel env g eps alpha gamma nA state 0.

Definition train {E} (fuel : nat) (env : Env E) (g : Globals) (num_episodes : Z)
    (eps eps_min eps_decay alpha gamma : Q) (plot_every : Z)
  : M (World E) (defaultdict * list Q * list Q) :=
  train_with (fun eps => generate_sarsa_episode fuel env g eps alpha gamma)
    eps_min eps_decay num_episodes plot_every (action_space_n env) eps.

End ExpectedSarsa.

(** ** Cells outside the training functions *)

Section Cells.
Context {E : Type}.





End Cells.

(** [key in Q]: a membership test does not call the factory. *)
Definition contains (d : defaultdict) (key : State) : bool :=
  bool_decide (is_Some (items d !! Some key)).

(** One element of the policy comprehension,
    [np.argmax(Q[key]) if <key in ...> else -1], once the membership test has
    been evaluated. *)
Definition policy_entry (in_Q : bool) (key : State) : M defaultdict Z :=
  if in_Q then
    let! v := getitem (Some key) in
    let! a := lift_result (np_argmax v) in
    ret (Z.of_nat a)
  else ret (-1)%Z.

(** Parts 1 and 2:
<<
    policy = np.array([np.argmax(Q_sarsa[key]) if key in Q_sarsa else -1
                       for key in np.arange(12*4)])
>>
    Membership and lookup are on the same table. *)
Fixpoint policy_of_table (keys : list State) : M defaultdict (list Z) :=
  match keys with
  | [] => ret []
  | key :: rest =>
      let! entry := (fun d => policy_entry (contains d key) key d) in
      let! entries := policy_of_table rest in
      ret (entry :: entries)
  end.

(** Part 3:
<<
    policy = np.array([np.argmax(Q_sarsa_orig[key]) if key in Q_sarsa else -1
                       for key in np.arange(12*4)])
>>
    Membership is tested on [Q_sarsa], the lookup is in [Q_sarsa_orig] (the
    threaded table). *)
Fixpoint policy_of_tables (Q_sarsa : defaultdict) (keys : list State)
  : M defaultdict (list Z) :=
  match keys with
  | [] => ret []
  | key :: rest =>
      let! entry := policy_entry (contains Q_sarsa key) key in
      let! entries := policy_of_tables Q_sarsa rest in
      ret (entry :: entries)
  end.

(** [np.arange(n)]. *)
Definition np_arange (n : nat) : list State := map Z.of_nat (seq 0 n).

Definition policy_cell : M defaultdict (list Z) :=
  policy_of_table (np_arange (12 * 4)).

Definition policy_cell_part3 (Q_sarsa : defaultdict) : M defaultdict (list Z) :=
  policy_of_tables Q_sarsa (np_arange (12 * 4)).


(** * Vocabulary of the statements

    Predicates on tables, the tables a statement leaves behind, and the
    concrete tables, worlds and environments the examples run on. *)

(** A table is well formed for its factory when the action count is
    positive and every stored row has that length. *)
Definition wf (d : defaultdict) : Prop :=
  (0 < zeros_n d)%Z /\
  forall k v, items d !! k = Some v -> length v = Z.to_nat (zeros_n d).

(** The table after [Q[k]] has been evaluated. *)
Definition touch (k : option Z) (d : defaultdict) : defaultdict :=
  match items d !! k with
  | Some _ => d
  | None => {| zeros_n := zeros_n d;
               items := <[k := replicate (Z.to_nat (zeros_n d)) 0]> (items d) |}
  end.

(** The table after [Q[k][a] = x]. *)
Definition store (k : option Z) (a : Action) (x : Q) (d : defaultdict)
  : defaultdict :=
  {| zeros_n := zeros_n d; items := <[k := <[a := x]> (row d k)]> (items d) |}.

(** [d1] differs from [d] at most by rows created on first access. *)
Definition same_view (d d1 : defaultdict) : Prop :=
  zeros_n d1 = zeros_n d /\ forall k, row d1 k = row d k.




Inductive variant : Type := SARSA | SARSAMAX | EXPECTED_SARSA.

(** The update rule under the common signature of the design
    ([target(table, next_state_or_none, epsilon, nA, chosen_next_action_or_none)]):
    each variant is the bootstrap computation of its notebook.  [next] is the
    next state with the action chosen for it, or [None] at a terminal
    transition; only SARSA looks at the chosen action, only Expected SARSA at
    [epsilon] and [nA]. *)
Definition target (v : variant) (next : option (State * Action))
    (epsilon : Q) (nA : Z) : M defaultdict Q :=
  match v with
  | SARSA => Sarsa.bootstrap next
  | SARSAMAX => Sarsamax.bootstrap (fst <$> next)
  | EXPECTED_SARSA => ExpectedSarsa.bootstrap epsilon nA (fst <$> next)
  end.

Definition result_value {A S} (r : result (A * S)) : option A :=
  match r with
  | Ok (a, _) => Some a
  | _ => None
  end.

(** A two-action table whose row for state 1 is [0; 5]. *)
Definition table_0_5 : defaultdict := store (Some 1%Z) 1 5 (new_table 2).

(** A stateless world over [table_0_5] whose uniform draws are all [1/2]
    and whose integer draws are all [0]. *)
Definition world_0_5 : World unit :=
  {| table := table_0_5;
     random := {| uniform := fun _ => 1#2; integers := fun _ => 0%Z; cursor := 0 |};
     env_state := tt |}.

(** A world over an empty two-action table; its first uniform draw is [1/2]. *)
Definition world_empty : World unit :=
  {| table := new_table 2;
     random := {| uniform := fun _ => 1#2; integers := fun _ => 0%Z; cursor := 0 |};
     env_state := tt |}.

(** The row stored under [None] once [Q[None]] has been evaluated. *)
Definition none_row_after (d : defaultdict) : list Q :=
  match items d !! None with
  | Some v => v
  | None => replicate (Z.to_nat (zeros_n d)) 0
  end.

(** A small deterministic environment: three states [0, 1, 2] and two
    actions.  Action [1] moves from [0] to [1] and from [1] to the terminal
    state [2], each with reward [r]; every other action returns to [0] with
    reward [-10].  The environment state is the current position. *)
Definition corridor (r : Q) : Env Z :=
  {| action_space_n := 2;
     env_reset := fun _ => (0%Z, 0%Z);
     env_step := fun a pos =>
       if (a =? 1)%nat then
         if (pos =? 1)%Z then ((2%Z, r, true), 2%Z) else ((1%Z, r, false), 1%Z)
       else ((0%Z, -10, false), 0%Z) |}.

(** A world for it: uniform draws all [1/2], integer draws all [1], and a
    table [d]. *)
Definition corridor_world (d : defaultdict) : World Z :=
  {| table := d;
     random := {| uniform := fun _ => 1#2; integers := fun _ => 1%Z; cursor := 0 |};
     env_state := 0%Z |}.

Definition result_map {A B} (f : A -> B) (r : result A) : result B :=
  match r with
  | Ok a => Ok (f a)
  | Raise e => Raise e
  | OutOfFuel => OutOfFuel
  end.

(** The rates [decay_eps] produces from [eps]: the value after one
    application, after two, ... *)
Fixpoint eps_schedule (eps_decay eps_min eps : Q) (n : nat) : list Q :=
  match n with
  | O => []
  | S n' =>
      let e := decay_eps eps_decay eps_min eps in
      e :: eps_schedule eps_decay eps_min e n'
  end.

(** Running one episode per listed rate, in order, collecting the scores. *)
Fixpoint run_episodes {W} (episode : Q -> M W Q) (rates : list Q)
  : M W (list Q) :=
  match rates with
  | [] => ret []
  | e :: rest =>
      let! score := episode e in
      let! scores := run_episodes episode rest in
      ret (score :: scores)
  end.

(** The world [train] starts its loop in: a fresh table, same randomness and
    environment. *)
Definition fresh_world {E} (nA : Z) (w : World E) : World E :=
  {| table := new_table nA; random := random w; env_state := env_state w |}.

(** [r] is the outcome of a [train] run whose table, full reward history
    and final world are those of running [episode] once per rate of the
    schedule, in order, from a fresh table (errors and exhausted fuel
    included). *)
Definition runs_on_schedule {E}
    (r : result (defaultdict * list Q * list Q * World E))
    (episode : Q -> M (World E) Q) (rates : list Q) (nA : Z) (w : World E)
  : Prop :=
  result_map (fun r => (snd (fst (fst r)), fst (fst (fst r)), snd r)) r
  = result_map (fun r => (fst r, table (snd r), snd r))
      (run_episodes episode rates (fresh_world nA w)).



(** ** Vocabulary of the properties of whole runs and of the cells *)


(** [avg] holds one entry per completed block of [P] scores of [all]: the
    mean of that block. *)
Definition block_means (P : nat) (all avg : list Q) : Prop :=
  length avg = (length all / P)%nat /\
  forall j, (j < length all / P)%nat ->
            avg !! j = Some (np_mean (take P (drop (j * P) all))).

(** What a successful [train] run returns as reward histories. *)
Definition histories_ok {E} (num_episodes plot_every : Z)
    (r : result (defaultdict * list Q * list Q * World E)) : Prop :=
  forall d all_rewards avg_rewards w',
    r = Ok ((d, all_rewards, avg_rewards), w') ->
    length all_rewards = Z.to_nat num_episodes /\
    length avg_rewards = Z.to_nat (num_episodes / plot_every) /\
    forall j, (j < length avg_rewards)%nat ->
      avg_rewards !! j
      = Some (np_mean (take (Z.to_nat plot_every)
                         (drop (j * Z.to_nat plot_every) all_rewards))).

(** The action is the first maximiser of the row [state] reads. *)
Definition first_greedy (d : defaultdict) (state : State) (a : Action) : Prop :=
  exists m, peek d (Some state) a = Some m /\
            (forall a' x, peek d (Some state) a' = Some x -> x <= m) /\
            (forall a' x, (a' < a)%nat -> peek d (Some state) a' = Some x -> x < m).

(** A transition without its reward. *)
Definition forget_reward {E} (t : (State * Q * bool) * E) : State * bool * E :=
  (fst (fst (fst t)), snd (fst t), snd t).

(** Two environments that differ at most in the rewards they emit. *)
Definition same_dynamics {E} (env1 env2 : Env E) : Prop :=
  action_space_n env1 = action_space_n env2 /\
  (forall e, env_reset env1 e = env_reset env2 e) /\
  (forall a e, forget_reward (env_step env1 a e)
               = forget_reward (env_step env2 a e)).

(** The state a run ends in, or how it failed. *)
Definition final_world {A S} (r : result (A * S)) : result S :=
  result_map snd r.

(** The table and final world of a [train] run, or how it failed. *)
Definition learned {E} (r : result (defaultdict * list Q * list Q * World E))
  : result (defaultdict * World E) :=
  result_map (fun r => (fst (fst (fst r)), snd r)) r.

(** What one statement [Q[state][action] = update_sarsa_Q(...)] that returns
    has done: [d0] is the table after the bootstrap computation, [t] the
    bootstrap value, [q] the old entry. *)
Definition td_step (g : Globals) (alpha gamma : Q) (state : State)
    (action : Action) (d d0 d' : defaultdict) (t : Q) : Prop :=
  exists q, peek d (Some state) action = Some q /\
            same_view d d0 /\
            d' = store (Some state) action
                   (q + alpha * (reward g + gamma * t - q))
                   (touch (Some state) d0).

(** Every entry of the table reads as a non-positive value. *)
Definition nonpos (d : defaultdict) : Prop :=
  forall k a x, peek d k a = Some x -> x <= 0.

(** The tables [train] returns hold no positive value. *)
Definition returns_nonpos {E}
    (r : result (defaultdict * list Q * list Q * World E)) : Prop :=
  match r with
  | Ok ((d, _, _), _) => nonpos d
  | _ => True
  end.

(** What the entry for [key] must be, given the table [member] whose keys
    are tested and the table [values] that is read. *)
Definition policy_entry_spec (member values : defaultdict) (key : State)
    (entry : Z) : Prop :=
  if contains member key
  then exists a, entry = Z.of_nat a /\
                 (a < Z.to_nat (zeros_n values))%nat /\
                 first_greedy values key a
  else entry = (-1)%Z.






(** The run returned. *)
Definition returns {A W} (r : result (A * W)) : Prop :=
  match r with Ok _ => True | _ => False end.












(** Every entry of the table reads as zero. *)
Definition all_zero (d : defaultdict) : Prop :=
  forall k a x, peek d k a = Some x -> x == 0.

(** The table [train] returns reads zero everywhere. *)
Definition returns_all_zero {E}
    (r : result (defaultdict * list Q * list Q * World E)) : Prop :=
  match r with
  | Ok ((d, _, _), _) => all_zero d
  | _ => True
  end.

(** * Properties *)

(** ** Arithmetic helpers *)

Lemma Qltb_lt (x y : Q) : Qltb x y = true <-> x < y.
Proof.
  unfold Qltb. rewrite negb_true_iff.
  destruct (Qle_bool y x) eqn:H.
  - apply Qle_bool_iff in H. split; [discriminate | intros; lra].
  - split; [intros _ | reflexivity].
    apply Qnot_le_lt. intros Hle. apply Qle_bool_iff in Hle. congruence.
Qed.

Lemma Qltb_ge (x y : Q) : Qltb x y = false <-> y <= x.
Proof.
  destruct (Qltb x y) eqn:H.
  - apply Qltb_lt in H. split; [discriminate | intros; lra].
  - split; [intros _ | reflexivity].
    apply Qnot_lt_le. intros Hlt. apply Qltb_lt in Hlt. congruence.
Qed.

Lemma sumQ_app (l1 l2 : list Q) : sumQ (l1 ++ l2) == sumQ l1 + sumQ l2.
Proof.
  induction l1 as [|x l1 IH]; simpl.
  - lra.
  - rewrite IH. lra.
Qed.



(** ** [np.argmax] returns a position holding a maximum *)

Lemma argmax_aux_spec (t pre : list Q) (best : Q) (besti : nat) :
  pre !! besti = Some best ->
  (forall x, x ∈ pre -> x <= best) ->
  exists m, (pre ++ t) !! argmax_aux t (length pre) best besti = Some m
            /\ forall x, x ∈ pre ++ t -> x <= m.
Proof.
  revert pre best besti.
  induction t as [|x t IH]; intros pre best besti Hb Hmax; simpl.
  - exists best. rewrite app_nil_r. auto.
  - destruct (Qltb best x) eqn:Hlt.
    + apply Qltb_lt in Hlt.
      destruct (IH (pre ++ [x]) x (length pre)) as (m & Hm & Hall).
      * rewrite lookup_app_r by lia. by rewrite Nat.sub_diag.
      * intros y Hy. apply elem_of_app in Hy as [Hy | Hy].
        -- specialize (Hmax y Hy). lra.
        -- apply list_elem_of_singleton in Hy. subst. lra.
      * exists m. rewrite length_app, Nat.add_1_r in Hm.
        rewrite <- app_assoc in Hm, Hall. auto.
    + apply Qltb_ge in Hlt.
      destruct (IH (pre ++ [x]) best besti) as (m & Hm & Hall).
      * apply lookup_app_l_Some. exact Hb.
      * intros y Hy. apply elem_of_app in Hy as [Hy | Hy]; [auto |].
        apply list_elem_of_singleton in Hy. by subst.
      * exists m. rewrite length_app, Nat.add_1_r in Hm.
        rewrite <- app_assoc in Hm, Hall. auto.
Qed.

Lemma np_argmax_spec (v : list Q) :
  (0 < length v)%nat ->
  exists j m, np_argmax v = Ok j /\ v !! j = Some m
              /\ forall x, x ∈ v -> x <= m.
Proof.
  destruct v as [|x t]; simpl; [lia | intros _].
  destruct (argmax_aux_spec t [x] x 0) as (m & Hm & Hall).
  - reflexivity.
  - intros y Hy. apply list_elem_of_singleton in Hy. subst. lra.
  - exists (argmax_aux t 1 x 0), m. auto.
Qed.

(** ** The table: lazy initialisation and single-entry writes *)

Lemma bind_Ok {S A B} (m : M S A) (k : A -> M S B) (s s' : S) (a : A) :
  m s = Ok (a, s') -> bind m k s = k a s'.
Proof. unfold bind. by intros ->. Qed.

Lemma bind_Raise {S A B} (m : M S A) (k : A -> M S B) (s : S) (e : exn) :
  m s = Raise e -> bind m k s = Raise e.
Proof. unfold bind. by intros ->. Qed.

Lemma bind_OutOfFuel {S A B} (m : M S A) (k : A -> M S B) (s : S) :
  m s = OutOfFuel -> bind m k s = OutOfFuel.
Proof. unfold bind. by intros ->. Qed.

Lemma bind_inv_Ok {S A B} (m : M S A) (k : A -> M S B) (s s2 : S) (b : B) :
  bind m k s = Ok (b, s2) ->
  exists a s1, m s = Ok (a, s1) /\ k a s1 = Ok (b, s2).
Proof.
  unfold bind. destruct (m s) as [[a s1]| |]; try discriminate. eauto.
Qed.

Lemma same_view_refl d : same_view d d.
Proof. by split. Qed.

Lemma same_view_trans d d1 d2 :
  same_view d d1 -> same_view d1 d2 -> same_view d d2.
Proof.
  intros [Hn1 Hr1] [Hn2 Hr2]. split; [congruence |].
  intros k. by rewrite Hr2, Hr1.
Qed.

Lemma zeros_n_touch k d : zeros_n (touch k d) = zeros_n d.
Proof. unfold touch. by destruct (items d !! k). Qed.

Lemma row_touch k k' d : row (touch k d) k' = row d k'.
Proof.
  unfold touch, row. destruct (items d !! k) eqn:Hk; [done |]. simpl.
  destruct (decide (k = k')) as [<- | Hne].
  - by rewrite lookup_insert_eq, Hk.
  - by rewrite lookup_insert_ne.
Qed.

Lemma same_view_touch k d : same_view d (touch k d).
Proof. split; [apply zeros_n_touch | intros k'; apply row_touch]. Qed.

Lemma items_touch k d : items (touch k d) !! k = Some (row d k).
Proof.
  unfold touch, row. destruct (items d !! k) eqn:Hk; [done |]. simpl.
  by rewrite lookup_insert_eq.
Qed.

Lemma wf_touch k d : wf d -> wf (touch k d).
Proof.
  intros [Hn Hlen]. unfold touch. destruct (items d !! k) eqn:Hk; [by split |].
  split; [done |]. simpl. intros k' v.
  destruct (decide (k = k')) as [<- | Hne].
  - rewrite lookup_insert_eq. intros [= <-]. apply length_replicate.
  - rewrite lookup_insert_ne by done. apply Hlen.
Qed.

Lemma length_row d k : wf d -> length (row d k) = Z.to_nat (zeros_n d).
Proof.
  intros [_ Hlen]. unfold row. destruct (items d !! k) eqn:Hk.
  - by apply (Hlen k).
  - apply length_replicate.
Qed.

Lemma getitem_touch k d :
  (0 <= zeros_n d)%Z -> getitem k d = Ok (row d k, touch k d).
Proof.
  intros Hn. unfold getitem, touch, row, np_zeros.
  destruct (items d !! k); [done |].
  destruct (Z.ltb_spec (zeros_n d) 0); [lia | done].
Qed.

Lemma getitem2_peek k a d x :
  (0 <= zeros_n d)%Z -> peek d k a = Some x ->
  getitem2 k a d = Ok (x, touch k d).
Proof.
  intros Hn Hx. unfold getitem2.
  rewrite (bind_Ok _ _ _ _ _ (getitem_touch k d Hn)).
  unfold lift_result, np_index. unfold peek in Hx. by rewrite Hx.
Qed.



Lemma row_store k a x d k' :
  row (store k a x d) k' =
  if decide (k' = k) then <[a := x]> (row d k) else row d k'.
Proof.
  unfold store, row at 1. simpl. case_decide as Hk.
  - subst. by rewrite lookup_insert_eq.
  - rewrite lookup_insert_ne by done. reflexivity.
Qed.

Lemma wf_store k a x d : wf d -> wf (store k a x d).
Proof.
  intros Hwf. pose proof Hwf as [Hn Hlen]. split; [done |]. simpl.
  intros k' v. destruct (decide (k = k')) as [<- | Hne].
  - rewrite lookup_insert_eq. intros [= <-].
    rewrite length_insert. by apply length_row.
  - rewrite lookup_insert_ne by done. apply Hlen.
Qed.


Lemma touch_idemp k d : touch k (touch k d) = touch k d.
Proof.
  unfold touch at 1. by rewrite items_touch.
Qed.

Lemma peek_same_view d d1 k a : same_view d d1 -> peek d1 k a = peek d k a.
Proof. intros [_ Hrow]. unfold peek. by rewrite Hrow. Qed.

(** ** The common last line of the three update functions *)



(** ** Bootstrap values of the three variants *)


Lemma sarsamax_bootstrap_ok (d : defaultdict) (next_state : option State) :
  wf d ->
  exists t d1,
    Sarsamax.bootstrap next_state d = Ok (t, d1) /\ wf d1 /\ same_view d d1 /\
    d1 = touch next_state d /\
    match next_state with
    | Some ns =>
        t ∈ row d (Some ns) /\ forall x, x ∈ row d (Some ns) -> x <= t
    | None => t = 0
    end.
Proof.
  intros Hwf. pose proof Hwf as [Hn _]. unfold Sarsamax.bootstrap.
  assert (Hn0 : (0 <= zeros_n d)%Z) by lia.
  rewrite (bind_Ok _ _ _ _ _ (getitem_touch next_state d Hn0)).
  destruct (np_argmax_spec (row d next_state)) as (j & m & Hj & Hm & Hall).
  { rewrite length_row by done. lia. }
  rewrite Hj. simpl. unfold bind at 1. simpl.
  destruct next_state as [ns|].
  - exists m, (touch (Some ns) d).
    rewrite (getitem2_peek _ _ _ m); cycle 1.
    { rewrite zeros_n_touch. lia. }
    { unfold peek. by rewrite row_touch. }
    rewrite touch_idemp.
    split; [done |]. split; [by apply wf_touch |].
    split; [apply same_view_touch |]. split; [done |].
    split; [| done]. apply list_elem_of_lookup. eauto.
  - exists 0, (touch None d).
    auto using wf_touch, same_view_touch.
Qed.

Lemma inject_Z_pos (n : Z) : (0 < n)%Z -> 0 < inject_Z n.
Proof. intros H. change 0 with (inject_Z 0). rewrite <- Zlt_Qlt. exact H. Qed.



Lemma wf_new_table (n : Z) : (0 < n)%Z -> wf (new_table n).
Proof. intros Hn. split; [done |]. intros k v. simpl. by rewrite lookup_empty. Qed.

(** ** C1: the update formula and its single write *)







(** ** C5: terminal transitions bootstrap from zero *)




(** ** C4: the epsilon-greedy probability vector of Expected SARSA *)




(** ** C3: the SARSAMAX bootstrap value is the row maximum *)

(** The Expected-SARSA bootstrap value moves with [epsilon]: on [table_0_5]
    it is [5] for [epsilon = 0] and [5/2] for [epsilon = 1]. *)
Lemma expected_target_varies_with_eps :
  exists t1 t2,
    result_value (target EXPECTED_SARSA (Some (1%Z, 0%nat)) 0 2 table_0_5) = Some t1 /\
    result_value (target EXPECTED_SARSA (Some (1%Z, 0%nat)) 1 2 table_0_5) = Some t2 /\
    t1 == 5 /\ t2 == 5#2 /\ ~ t1 == t2.
Proof.
  eexists. eexists. split; [vm_compute; reflexivity |].
  split; [vm_compute; reflexivity |].
  split; [reflexivity |]. split; [reflexivity |]. intros H. discriminate H.
Qed.

(** The SARSA bootstrap value moves with [epsilon] through the action the
    selector picks for the next state: with the same draws, [epsilon = 0]
    selects the greedy action [1] (value [5]) and [epsilon = 1] the drawn
    action [0] (value [0]). *)
Lemma sarsa_target_varies_with_eps :
  exists a1 a2 t1 t2,
    result_value (eps_greedy 0 1 2 world_0_5) = Some a1 /\
    result_value (eps_greedy 1 1 2 world_0_5) = Some a2 /\
    result_value (target SARSA (Some (1%Z, a1)) 0 2 table_0_5) = Some t1 /\
    result_value (target SARSA (Some (1%Z, a2)) 1 2 table_0_5) = Some t2 /\
    ~ t1 == t2.
Proof.
  exists 1%nat, 0%nat, 5, 0. repeat split; try (vm_compute; reflexivity).
  intros H. discriminate H.
Qed.

(** C3.  On a well-formed table and for a non-terminal [next_state], the
    SARSAMAX bootstrap value is an entry of [Q[next_state]] at an action in
    [0, nA) that is at least every entry of that row, i.e. the maximum over
    the actions; it is the same for every exploration rate (and every chosen
    next action), whereas the Expected-SARSA and SARSA values change with the
    exploration rate on a concrete table. *)
Theorem sarsamax_target_is_max_for_every_eps (d : defaultdict) (ns : State) :
  wf d ->
  (exists t d1,
      Sarsamax.bootstrap (Some ns) d = Ok (t, d1) /\
      (exists a, (a < Z.to_nat (zeros_n d))%nat /\ peek d (Some ns) a = Some t) /\
      (forall a x, peek d (Some ns) a = Some x -> x <= t) /\
      (forall (eps : Q) (na : Action),
          target SARSAMAX (Some (ns, na)) eps (zeros_n d) d = Ok (t, d1))) /\
  (forall (eps1 eps2 : Q) (na1 na2 : Action) (nA1 nA2 : Z),
      target SARSAMAX (Some (ns, na1)) eps1 nA1 d =
      target SARSAMAX (Some (ns, na2)) eps2 nA2 d) /\
  (exists t1 t2,
      result_value (target EXPECTED_SARSA (Some (1%Z, 0%nat)) 0 2 table_0_5) = Some t1 /\
      result_value (target EXPECTED_SARSA (Some (1%Z, 0%nat)) 1 2 table_0_5) = Some t2 /\
      ~ t1 == t2) /\
  (exists a1 a2 t1 t2,
      result_value (eps_greedy 0 1 2 world_0_5) = Some a1 /\
      result_value (eps_greedy 1 1 2 world_0_5) = Some a2 /\
      result_value (target SARSA (Some (1%Z, a1)) 0 2 table_0_5) = Some t1 /\
      result_value (target SARSA (Some (1%Z, a2)) 1 2 table_0_5) = Some t2 /\
      ~ t1 == t2).
Proof.
  intros Hwf. split; [| split; [reflexivity | split]].
  - destruct (sarsamax_bootstrap_ok d (Some ns) Hwf)
      as (t & d1 & Hb & _ & _ & _ & Hin & Hmax).
    exists t, d1. split; [exact Hb |]. split; [| split].
    + apply list_elem_of_lookup in Hin as [a Ha]. exists a. split; [| exact Ha].
      apply lookup_lt_Some in Ha. by rewrite length_row in Ha.
    + intros a x Hx. apply Hmax. apply list_elem_of_lookup. by exists a.
    + intros eps na. exact Hb.
  - destruct expected_target_varies_with_eps as (t1 & t2 & H1 & H2 & _ & _ & Hne).
    by exists t1, t2.
  - exact sarsa_target_varies_with_eps.
Qed.

Lemma sarsamax_target_is_max_for_every_eps_witness :
  wf table_0_5 /\
  exists t d1,
    Sarsamax.bootstrap (Some 1%Z) table_0_5 = Ok (t, d1) /\
    (exists a, (a < Z.to_nat (zeros_n table_0_5))%nat
               /\ peek table_0_5 (Some 1%Z) a = Some t) /\
    (forall a x, peek table_0_5 (Some 1%Z) a = Some x -> x <= t) /\
    (forall (eps : Q) (na : Action),
        target SARSAMAX (Some (1%Z, na)) eps (zeros_n table_0_5) table_0_5
        = Ok (t, d1)).
Proof.
  assert (Hwf : wf table_0_5) by (apply wf_store, wf_new_table; lia).
  split; [exact Hwf |].
  exact (proj1 (sarsamax_target_is_max_for_every_eps table_0_5 1%Z Hwf)).
Defined.

(** ** C6: what the selector does to the table *)

Lemma on_table_inv {E A} (m : M defaultdict A) (w w' : World E) (a : A) :
  on_table m w = Ok (a, w') ->
  exists d', m (table w) = Ok (a, d') /\
             w' = {| table := d'; random := random w; env_state := env_state w |}.
Proof.
  unfold on_table. destruct (m (table w)) as [[a0 d']| |]; try discriminate.
  intros [= <- <-]. eauto.
Qed.

Lemma getitem_inv (k : option Z) (d d' : defaultdict) (v : list Q) :
  getitem k d = Ok (v, d') ->
  d' = touch k d /\ v = row d k.
Proof.
  unfold getitem, touch, row, np_zeros.
  destruct (items d !! k).
  - by intros [= <- <-].
  - destruct (zeros_n d <? 0)%Z; [discriminate |]. by intros [= <- <-].
Qed.

Lemma lift_result_inv {S A} (r : result A) (s s' : S) (a : A) :
  lift_result r s = Ok (a, s') -> r = Ok a /\ s' = s.
Proof. unfold lift_result. destruct r; try discriminate. by intros [= <- <-]. Qed.

Lemma np_random_rand_inv {E} (w w' : World E) (x : Q) :
  np_random_rand w = Ok (x, w') ->
  x = uniform (random w) (cursor (random w)) /\
  table w' = table w /\ env_state w' = env_state w.
Proof. unfold np_random_rand. by intros [= <- <-]. Qed.

Lemma np_random_randint_inv {E} (n : Z) (w w' : World E) (a : Action) :
  np_random_randint n w = Ok (a, w') ->
  (0 < n)%Z /\ (a < Z.to_nat n)%nat /\
  table w' = table w /\ env_state w' = env_state w.
Proof.
  unfold np_random_randint. destruct (Z.leb_spec n 0); [discriminate |].
  intros [= <- <-]. simpl. repeat split; try done.
  pose proof (Z.mod_pos_bound (integers (random w) (cursor (random w))) n).
  lia.
Qed.

Lemma eps_greedy_inv {E} (eps : Q) (state : State) (nA : Z)
    (w w' : World E) (a : Action) :
  eps_greedy eps state nA w = Ok (a, w') ->
  table w' =
    (if Qltb (uniform (random w) (cursor (random w))) eps then table w
     else touch (Some state) (table w)) /\
  (is_Some (items (table w) !! Some state) -> table w' = table w) /\
  (forall k v, items (table w) !! k = Some v -> items (table w') !! k = Some v) /\
  same_view (table w) (table w') /\
  env_state w' = env_state w.
Proof.
  unfold eps_greedy. intros Hrun.
  apply bind_inv_Ok in Hrun as (rand & w1 & Hrand & Hrun).
  apply np_random_rand_inv in Hrand as (-> & Ht1 & He1).
  assert (Hstored : forall k v, items (table w) !! k = Some v ->
                      items (touch (Some state) (table w)) !! k = Some v).
  { intros k v Hk. unfold touch.
    destruct (items (table w) !! Some state) eqn:Hs; [done |]. simpl.
    rewrite lookup_insert_ne; [done | congruence]. }
  destruct (Qltb _ eps).
  - apply np_random_randint_inv in Hrun as (_ & _ & Ht & He).
    rewrite Ht, Ht1, He, He1. auto using same_view_refl.
  - apply on_table_inv in Hrun as (d' & Hrun & ->). simpl.
    apply bind_inv_Ok in Hrun as (v & d1 & Hget & Hrun).
    apply getitem_inv in Hget as [-> ->].
    apply lift_result_inv in Hrun as [_ ->].
    rewrite Ht1, He1. split; [done |]. split.
    { intros [v Hv]. unfold touch. by rewrite Hv. }
    split; [exact Hstored |]. split; [apply same_view_touch | done].
Qed.


(** Counterexample to C6 as stated: with [eps = 0] the greedy branch reads
    [Q[7]] on an empty table, and the table returned holds a row for state 7
    that was not there before. *)
Lemma eps_greedy_inserts_missing_row :
  exists w',
    eps_greedy 0 7 2 world_empty = Ok (0%nat, w') /\
    items (table world_empty) !! Some 7%Z = None /\
    items (table w') !! Some 7%Z = Some [0; 0] /\
    table w' <> table world_empty.
Proof.
  eexists. split; [vm_compute; reflexivity |].
  split; [reflexivity |]. split; [reflexivity |].
  intros H. apply (f_equal (fun d => items d !! Some 7%Z)) in H.
  discriminate H.
Qed.

(** C6, amended.  A call of the selector that returns leaves every stored row
    and the reading of every entry unchanged.  The table is exactly the one
    before the call when the exploratory branch is taken ([rand < eps]) or
    when [state] already has a row; in the greedy branch for a state with no
    row, the table after the call is the table before with the zero row
    created for [state], and nothing else.  Beyond the table the call only
    consumes randomness: the environment is untouched, the tapes are the
    same, and the cursor has advanced. *)
Theorem eps_greedy_table_effect {E} (eps : Q) (state : State) (nA : Z)
    (w w' : World E) (a : Action) :
  eps_greedy eps state nA w = Ok (a, w') ->
  table w' =
    (if Qltb (uniform (random w) (cursor (random w))) eps then table w
     else touch (Some state) (table w)) /\
  (is_Some (items (table w) !! Some state) -> table w' = table w) /\
  (forall k v, items (table w) !! k = Some v -> items (table w') !! k = Some v) /\
  same_view (table w) (table w') /\
  env_state w' = env_state w /\
  uniform (random w') = uniform (random w) /\
  integers (random w') = integers (random w) /\
  (cursor (random w) < cursor (random w'))%nat.
Proof.
  intros Hrun.
  destruct (eps_greedy_inv eps state nA w w' a Hrun)
    as (Htable & Hsame & Hstored & Hview & Henv).
  do 5 (split; [assumption |]).
  unfold eps_greedy in Hrun.
  apply bind_inv_Ok in Hrun as (rand & w1 & Hrand & Hrun).
  unfold np_random_rand in Hrand. injection Hrand as _ <-.
  destruct (Qltb _ eps).
  - unfold np_random_randint in Hrun. simpl in Hrun.
    destruct (nA <=? 0)%Z; [discriminate |].
    injection Hrun as _ <-. simpl. repeat split; lia.
  - apply on_table_inv in Hrun as (d' & _ & ->). simpl. repeat split; lia.
Qed.

Lemma eps_greedy_table_effect_witness :
  eps_greedy 1 1 2 world_0_5 =
    Ok (0%nat,
        {| table := table_0_5;
           random := {| uniform := fun _ => 1#2; integers := fun _ => 0%Z;
                        cursor := 2 |};
           env_state := tt |}) /\
  (is_Some (items (table world_0_5) !! Some 1%Z) ->
   table_0_5 = table world_0_5) /\
  same_view (table world_0_5) table_0_5.
Proof.
  assert (Hrun : eps_greedy 1 1 2 world_0_5 =
    Ok (0%nat,
        {| table := table_0_5;
           random := {| uniform := fun _ => 1#2; integers := fun _ => 0%Z;
                        cursor := 2 |};
           env_state := tt |})) by (vm_compute; reflexivity).
  split; [exact Hrun |].
  pose proof (eps_greedy_table_effect 1 1%Z 2 world_0_5 _ 0%nat Hrun)
    as (_ & Hsame & _ & Hview & _).
  split; [exact Hsame | exact Hview].
Defined.

(** ** C10: the SARSAMAX terminal update leaves a row under [None] *)

Lemma touch_Some_none (s : State) (d : defaultdict) :
  items (touch (Some s) d) !! None = items d !! None.
Proof.
  unfold touch. destruct (items d !! Some s); [done |]. simpl.
  by rewrite lookup_insert_ne.
Qed.

Lemma touch_None_none (d : defaultdict) :
  items (touch None d) !! None = Some (none_row_after d).
Proof. rewrite items_touch. reflexivity. Qed.

Lemma getitem2_inv (k : option Z) (a : Action) (d d' : defaultdict) (x : Q) :
  getitem2 k a d = Ok (x, d') -> d' = touch k d /\ peek d k a = Some x.
Proof.
  unfold getitem2. intros H.
  apply bind_inv_Ok in H as (v & d1 & Hget & H).
  apply getitem_inv in Hget as [-> ->].
  apply lift_result_inv in H as [H ->]. split; [done |].
  unfold np_index in H. unfold peek. by destruct (row d k !! a); simplify_eq.
Qed.

Lemma setitem2_inv (k : option Z) (a : Action) (x : Q) (d d' : defaultdict) :
  setitem2 k a x d = Ok (tt, d') ->
  zeros_n d' = zeros_n d /\
  (forall k', k' <> k -> items d' !! k' = items d !! k').
Proof.
  unfold setitem2. intros H.
  apply bind_inv_Ok in H as (v & d1 & Hget & H).
  apply getitem_inv in Hget as [-> ->].
  apply bind_inv_Ok in H as (v' & d2 & Hset & H).
  apply lift_result_inv in Hset as [_ ->].
  injection H as <-. simpl. split; [apply zeros_n_touch |].
  intros k' Hne. rewrite lookup_insert_ne by done.
  unfold touch. destruct (items d !! k); [done |]. simpl.
  by rewrite lookup_insert_ne.
Qed.

Lemma td_tail_none (g : Globals) (alpha gamma Qsa : Q) (state : State)
    (action : Action) (d d' : defaultdict) (x : Q) :
  (let! q1 := getitem2 (Some state) action in
   let! q2 := getitem2 (Some state) action in
   ret (q1 + alpha * (reward g + gamma * Qsa - q2))) d = Ok (x, d') ->
  zeros_n d' = zeros_n d /\ items d' !! None = items d !! None.
Proof.
  intros H.
  apply bind_inv_Ok in H as (q1 & d1 & H1 & H).
  apply getitem2_inv in H1 as [-> _].
  apply bind_inv_Ok in H as (q2 & d2 & H2 & H).
  apply getitem2_inv in H2 as [-> _].
  injection H as _ <-.
  by rewrite !zeros_n_touch, !touch_Some_none.
Qed.

(** A SARSAMAX update call that returns: with no [next_state] the table
    returned holds a row under [None]; with a [next_state] the entry under
    [None] is as before. *)
Lemma sarsamax_update_none (g : Globals) (alpha gamma : Q) (state : State)
    (action : Action) (next_state : option State) (d d' : defaultdict) (x : Q) :
  Sarsamax.update_sarsa_Q g alpha gamma state action next_state d = Ok (x, d') ->
  zeros_n d' = zeros_n d /\
  items d' !! None =
    match next_state with
    | Some _ => items d !! None
    | None => Some (none_row_after d)
    end.
Proof.
  unfold Sarsamax.update_sarsa_Q, Sarsamax.bootstrap. intros H.
  apply bind_inv_Ok in H as (Qsa & d1 & Hboot & H).
  apply bind_inv_Ok in Hboot as (v & d0 & Hget & Hboot).
  apply getitem_inv in Hget as [-> ->].
  apply bind_inv_Ok in Hboot as (na & d0 & Harg & Hboot).
  apply lift_result_inv in Harg as [_ ->].
  apply td_tail_none in H as [Hn Hnone]. rewrite Hn, Hnone.
  destruct next_state as [ns|].
  - apply getitem2_inv in Hboot as [-> _].
    by rewrite !zeros_n_touch, !touch_Some_none.
  - injection Hboot as _ <-. by rewrite zeros_n_touch, touch_None_none.
Qed.

Lemma sarsamax_assign_none (g : Globals) (alpha gamma : Q) (state : State)
    (action : Action) (next_state : option State) (d d' : defaultdict) :
  assign_Q state action
    (Sarsamax.update_sarsa_Q g alpha gamma state action next_state) d
  = Ok (tt, d') ->
  zeros_n d' = zeros_n d /\
  items d' !! None =
    match next_state with
    | Some _ => items d !! None
    | None => Some (none_row_after d)
    end.
Proof.
  unfold assign_Q. intros H.
  apply bind_inv_Ok in H as (x & d1 & Hupd & H).
  apply sarsamax_update_none in Hupd as [Hn Hnone].
  apply setitem2_inv in H as [Hn' Hother].
  rewrite Hn', Hn, Hother by done. by rewrite Hnone.
Qed.

Lemma eps_greedy_none {E} (eps : Q) (state : State) (nA : Z)
    (w w' : World E) (a : Action) :
  eps_greedy eps state nA w = Ok (a, w') ->
  zeros_n (table w') = zeros_n (table w) /\
  items (table w') !! None = items (table w) !! None.
Proof.
  intros H. apply eps_greedy_inv in H as (-> & _).
  destruct (Qltb _ eps); [done |].
  by rewrite zeros_n_touch, touch_Some_none.
Qed.

Lemma step_inv {E} (env : Env E) (action : Action) (w w' : World E)
    (o : State * Q * bool) :
  step env action w = Ok (o, w') -> table w' = table w.
Proof.
  unfold step. destruct (env_step env action (env_state w)) as [o' e].
  by intros [= _ <-].
Qed.

Lemma reset_inv {E} (env : Env E) (w w' : World E) (s : State) :
  reset env w = Ok (s, w') -> table w' = table w.
Proof.
  unfold reset. destruct (env_reset env (env_state w)) as [s' e].
  by intros [= _ <-].
Qed.

Lemma none_row_after_eq (d d' : defaultdict) :
  zeros_n d' = zeros_n d -> items d' !! None = items d !! None ->
  none_row_after d' = none_row_after d.
Proof. unfold none_row_after. by intros -> ->. Qed.

Lemma sarsamax_loop_none {E} (fuel : nat) (env : Env E) (g : Globals)
    (eps alpha gamma : Q) (nA : Z) (state : State) (score score' : Q)
    (w w' : World E) :
  Sarsamax.episode_loop fuel env g eps alpha gamma nA state score w
  = Ok (score', w') ->
  items (table w') !! None = Some (none_row_after (table w)).
Proof.
  revert state score w.
  induction fuel as [|fuel IH]; intros state score w H; [discriminate |].
  simpl in H.
  apply bind_inv_Ok in H as (action & w1 & Hsel & H).
  apply eps_greedy_none in Hsel as [Hn1 Hnone1].
  apply bind_inv_Ok in H as ([[next_state r] done] & w2 & Hstep & H).
  apply step_inv in Hstep.
  rewrite <- (none_row_after_eq _ _ Hn1 Hnone1). rewrite <- Hstep.
  destruct done; simpl in H.
  - apply bind_inv_Ok in H as ([] & w3 & Hasg & H).
    injection H as _ <-.
    apply on_table_inv in Hasg as (d' & Hasg & ->). simpl.
    by apply sarsamax_assign_none in Hasg as [_ ->].
  - apply bind_inv_Ok in H as ([] & w3 & Hasg & H).
    apply on_table_inv in Hasg as (d' & Hasg & ->).
    apply sarsamax_assign_none in Hasg as [Hn Hnone].
    apply IH in H. rewrite H. simpl. f_equal.
    by apply none_row_after_eq.
Qed.

(** C10.  In the SARSAMAX notebook, a terminal update call that returns has
    evaluated [Q[None]]: the table it leaves holds a row under the key
    [None], the zero row when there was none before.  Hence the table after
    every completed episode holds a row under [None], which is no
    environment state (those are the keys [Some s]); started from a table
    without that key, the row is the zero row. *)
Theorem sarsamax_episode_leaves_None_key {E} (fuel : nat) (env : Env E)
    (g : Globals) (eps alpha gamma : Q) (w w' : World E) (score : Q) :
  Sarsamax.generate_sarsa_episode fuel env g eps alpha gamma w = Ok (score, w') ->
  (forall (state : State) (action : Action) (d d2 : defaultdict) (x : Q),
      Sarsamax.update_sarsa_Q g alpha gamma state action None d = Ok (x, d2) ->
      items d2 !! None = Some (none_row_after d)) /\
  items (table w') !! None = Some (none_row_after (table w)) /\
  is_Some (items (table w') !! None) /\
  (forall s : State, (None : option Z) <> Some s) /\
  (items (table w) !! None = None ->
   items (table w') !! None
   = Some (replicate (Z.to_nat (zeros_n (table w))) 0)).
Proof.
  intros H.
  assert (Hkey : items (table w') !! None = Some (none_row_after (table w))).
  { unfold Sarsamax.generate_sarsa_episode in H.
    apply bind_inv_Ok in H as (state & w1 & Hreset & H).
    apply reset_inv in Hreset. apply sarsamax_loop_none in H.
    by rewrite H, Hreset. }
  split.
  { intros state action d d2 x Hupd.
    by apply sarsamax_update_none in Hupd as [_ ->]. }
  split; [exact Hkey |]. split; [by rewrite Hkey |]. split; [done |].
  intros Hnone. rewrite Hkey. unfold none_row_after. by rewrite Hnone.
Qed.

Lemma sarsamax_episode_leaves_None_key_witness :
  exists score w',
    Sarsamax.generate_sarsa_episode 5 (corridor (-1)) {| reward := -1 |}
      (9#10) (1#10) 1 (corridor_world (new_table 2)) = Ok (score, w') /\
    score == -2 /\
    items (table (corridor_world (new_table 2))) !! None = None /\
    items (table w') !! None = Some [0; 0].
Proof.
  assert (Hrun : exists score w',
             Sarsamax.generate_sarsa_episode 5 (corridor (-1)) {| reward := -1 |}
               (9#10) (1#10) 1 (corridor_world (new_table 2)) = Ok (score, w')
             /\ score == -2).
  { eexists. eexists. split; [vm_compute; reflexivity | reflexivity]. }
  destruct Hrun as (score & w' & Hrun & Hscore).
  exists score, w'. split; [exact Hrun |]. split; [exact Hscore |].
  split; [reflexivity |].
  destruct (sarsamax_episode_leaves_None_key 5 (corridor (-1))
              {| reward := -1 |} (9#10) (1#10) 1
              (corridor_world (new_table 2)) w' score Hrun)
    as (_ & _ & _ & _ & Hzero).
  apply Hzero. reflexivity.
Defined.

(** ** Well-formed runs raise no exception

    With a positive action count the tables stay well formed, every action
    passed to an update is in range, and neither the runners nor [train]
    raise: they return or, in the model, run out of fuel. *)










(** ** C8: the floor of the exploration schedule *)

Section DecayFloor.
Variables eps_decay eps_min : Q.
Hypothesis decay_pos : 0 < eps_decay.
Hypothesis decay_lt_1 : eps_decay < 1.
Hypothesis floor_pos : 0 < eps_min.

Lemma py_max_cases (a b : Q) :
  (a < b /\ py_max a b = b) \/ (b <= a /\ py_max a b = a).
Proof.
  unfold py_max. destruct (Qltb a b) eqn:H.
  - left. by apply Qltb_lt in H.
  - right. by apply Qltb_ge in H.
Qed.

(** At or below the floor, one application lands on the floor. *)
Lemma decay_eps_below (e : Q) :
  e <= eps_min -> decay_eps eps_decay eps_min e == eps_min.
Proof.
  intros He. unfold decay_eps.
  destruct (py_max_cases (e * eps_decay) eps_min) as [[_ ->] | [Hge ->]].
  - reflexivity.
  - nra.
Qed.

(** Starting exactly at the floor, an application returns the floor itself. *)
Lemma decay_eps_fixed : decay_eps eps_decay eps_min eps_min = eps_min.
Proof.
  unfold decay_eps.
  destruct (py_max_cases (eps_min * eps_decay) eps_min) as [[_ ->] | [Hge _]].
  - reflexivity.
  - nra.
Qed.

Lemma decay_eps_stays (e : Q) (k : nat) :
  e == eps_min -> Nat.iter k (decay_eps eps_decay eps_min) e == eps_min.
Proof.
  intros He. induction k as [|k IH]; simpl; [exact He |].
  apply decay_eps_below. rewrite IH. lra.
Qed.

(** Within [n] linear steps of the floor, at most [n + 1] applications reach
    it. *)
Lemma decay_eps_reaches_from (n : nat) (e : Q) :
  e <= eps_min * (1 + inject_Z (Z.of_nat n) * (1 - eps_decay)) ->
  exists k, Nat.iter k (decay_eps eps_decay eps_min) e == eps_min.
Proof.
  revert e. induction n as [|n IH]; intros e He.
  - exists 1%nat. simpl. apply decay_eps_below.
    change (inject_Z (Z.of_nat 0)) with 0 in He. lra.
  - destruct (py_max_cases (e * eps_decay) eps_min) as [[Hlt Hm] | [Hge Hm]].
    + exists 1%nat. simpl. unfold decay_eps. by rewrite Hm.
    + destruct (IH (e * eps_decay)) as [k Hk].
      * rewrite Nat2Z.inj_succ in He. unfold Z.succ in He.
        rewrite inject_Z_plus in He. change (inject_Z 1) with 1 in He.
        assert (Hn : 0 <= inject_Z (Z.of_nat n)).
        { change 0 with (inject_Z 0). rewrite <- Zle_Qle. lia. }
        set (c := inject_Z (Z.of_nat n)) in *.
        assert (H1 : e * eps_decay
                     <= eps_min * (1 + (c + 1) * (1 - eps_decay)) * eps_decay).
        { apply Qmult_le_compat_r; lra. }
        assert (H2 : 0 <= eps_min * (c + 1)
                          * ((1 - eps_decay) * (1 - eps_decay))).
        { apply Qmult_le_0_compat; [| nra].
          apply Qmult_le_0_compat; lra. }
        lra.
      * exists (S k). rewrite Nat.iter_succ_r.
        fold (decay_eps eps_decay eps_min e) in Hm. by rewrite Hm.
Qed.

Lemma decay_eps_reaches (e : Q) :
  exists k, Nat.iter k (decay_eps eps_decay eps_min) e == eps_min.
Proof.
  destruct (Qarchimedean (e / (eps_min * (1 - eps_decay)))) as [p Hp].
  apply (decay_eps_reaches_from (Pos.to_nat p)).
  rewrite positive_nat_Z.
  assert (Hpos : 0 < eps_min * (1 - eps_decay)) by nra.
  assert (He : e == e / (eps_min * (1 - eps_decay)) * (eps_min * (1 - eps_decay))).
  { field. lra. }
  change (Z.pos p # 1) with (inject_Z (Z.pos p)) in Hp.
  set (c := inject_Z (Z.pos p)) in *.
  set (x := e / (eps_min * (1 - eps_decay))) in *.
  nra.
Qed.

End DecayFloor.

(** C8.  For every decay factor in (0, 1), every positive floor and every
    starting value, iterating [e := max(e * eps_decay, eps_min)] reaches the
    floor after finitely many applications and stays there for every further
    application; at the floor an application returns the floor itself. *)
Theorem decay_reaches_floor_and_stays (eps_decay eps_min eps : Q) :
  0 < eps_decay -> eps_decay < 1 -> 0 < eps_min ->
  (exists n, forall k, (n <= k)%nat ->
             Nat.iter k (decay_eps eps_decay eps_min) eps == eps_min) /\
  decay_eps eps_decay eps_min eps_min = eps_min /\
  (forall e, e == eps_min -> decay_eps eps_decay eps_min e == eps_min).
Proof.
  intros Hd0 Hd1 Hm. split; [| split].
  - destruct (decay_eps_reaches eps_decay eps_min Hd0 Hd1 Hm eps) as [n Hn].
    exists n. intros k Hk. replace k with ((k - n) + n)%nat by lia.
    rewrite Nat.iter_add.
    by apply decay_eps_stays.
  - by apply decay_eps_fixed.
  - intros e He. apply decay_eps_below; [done .. |]. lra.
Qed.

Lemma decay_reaches_floor_and_stays_witness :
  0 < 9#10 /\ 9#10 < 1 /\ 0 < 1#100 /\
  (exists n, forall k, (n <= k)%nat ->
             Nat.iter k (decay_eps (9#10) (1#100)) 1 == 1#100) /\
  decay_eps (9#10) (1#100) (1#100) = 1#100 /\
  (forall e, e == 1#100 -> decay_eps (9#10) (1#100) e == 1#100).
Proof.
  split; [lra |]. split; [lra |]. split; [lra |].
  apply (decay_reaches_floor_and_stays (9#10) (1#100) 1); lra.
Defined.

(** ** C7: the exploration rate each episode runs with *)

Lemma eps_schedule_lookup (eps_decay eps_min eps : Q) (n i : nat) :
  (i < n)%nat ->
  eps_schedule eps_decay eps_min eps n !! i
  = Some (Nat.iter (S i) (decay_eps eps_decay eps_min) eps).
Proof.
  revert eps i. induction n as [|n IH]; intros eps i Hi; [lia |].
  destruct i as [|i]; [reflexivity |]. simpl eps_schedule.
  rewrite lookup_cons_ne_0 by done. simpl pred.
  rewrite IH by lia. by rewrite <- Nat.iter_succ_r.
Qed.

Lemma train_loop_schedule {E} (episode : Q -> M (World E) Q)
    (eps_min eps_decay : Q) (num_episodes plot_every : Z) (n : nat) (i : Z)
    (eps : Q) (all_rewards tmp_rewards avg_rewards : list Q) (w : World E) :
  (0 < plot_every)%Z ->
  result_map (fun r => (fst (fst r), snd r))
    (train_loop episode eps_min eps_decay num_episodes plot_every n i eps
       all_rewards tmp_rewards avg_rewards w)
  = result_map (fun r => (all_rewards ++ fst r, snd r))
      (run_episodes episode (eps_schedule eps_decay eps_min eps n) w).
Proof.
  intros Hplot.
  revert i eps all_rewards tmp_rewards avg_rewards w.
  induction n as [|n IH]; intros i eps all_rewards tmp_rewards avg_rewards w.
  - simpl. by rewrite app_nil_r.
  - simpl.
    destruct (episode (decay_eps eps_decay eps_min eps) w)
      as [[score w1]| e |] eqn:Hep.
    + rewrite (bind_Ok _ _ _ _ _ Hep).
      rewrite (bind_Ok (episode _) _ _ _ _ Hep).
      destruct (Z.eqb_spec plot_every 0); [lia |].
      rewrite IH.
      destruct (run_episodes episode _ w1) as [[scores w2]| e |] eqn:Hrest.
      * rewrite (bind_Ok _ _ _ _ _ Hrest). simpl. by rewrite <- app_assoc.
      * by rewrite (bind_Raise _ _ _ _ Hrest).
      * by rewrite (bind_OutOfFuel _ _ _ Hrest).
    + rewrite (bind_Raise _ _ _ _ Hep).
      by rewrite (bind_Raise (episode _) _ _ _ Hep).
    + rewrite (bind_OutOfFuel _ _ _ Hep).
      by rewrite (bind_OutOfFuel (episode _) _ _ Hep).
Qed.

Lemma train_with_schedule {E} (episode : Q -> M (World E) Q)
    (eps_min eps_decay : Q) (num_episodes plot_every : Z) (nA : Z) (eps : Q)
    (w : World E) :
  (0 <= num_episodes)%Z -> (0 < plot_every)%Z ->
  result_map (fun r => (snd (fst (fst r)), fst (fst (fst r)), snd r))
    (train_with episode eps_min eps_decay num_episodes plot_every nA eps w)
  = result_map (fun r => (fst r, table (snd r), snd r))
      (run_episodes episode
         (eps_schedule eps_decay eps_min eps (Z.to_nat num_episodes))
         (fresh_world nA w)).
Proof.
  intros Hn Hplot. unfold train_with, deque_new.
  destruct (Z.ltb_spec plot_every 0); [lia |].
  destruct (Z.ltb_spec num_episodes 0); [lia |].
  rewrite (bind_Ok _ _ w (fresh_world nA w) tt) by reflexivity.
  rewrite (bind_Ok _ _ _ (fresh_world nA w) []) by reflexivity.
  rewrite (bind_Ok _ _ _ (fresh_world nA w) []) by reflexivity.
  pose proof (train_loop_schedule episode eps_min eps_decay num_episodes
                plot_every (Z.to_nat num_episodes) 1 eps [] [] []
                (fresh_world nA w) Hplot) as Hloop.
  destruct (train_loop _ _ _ _ _ _ _ _ _ _ _ _) as [[[al av] w1]| e |] eqn:Hl;
    destruct (run_episodes _ _ _) as [[scores w2]| e' |];
    simpl in Hloop; try discriminate.
  - injection Hloop as Hal Hw. rewrite (bind_Ok _ _ _ _ _ Hl). simpl.
    simpl in Hal. by subst.
  - injection Hloop as ->. by rewrite (bind_Raise _ _ _ _ Hl).
  - by rewrite (bind_OutOfFuel _ _ _ Hl).
Qed.

(** C7.  With a non-negative episode count and a positive [plot_every], the
    three [train] functions run episode [i] (for [i = 1 .. num_episodes])
    with the rate obtained from the initial [eps] by [i] applications of
    [eps := max(eps * eps_decay, eps_min)]: episode 1 runs with
    [max(eps * eps_decay, eps_min)], not with [eps], and each later episode
    with the previous rate decayed once more. *)
Theorem train_decays_eps_before_each_episode {E} (fuel : nat) (env : Env E)
    (g : Globals) (num_episodes : Z) (eps eps_min eps_decay alpha gamma : Q)
    (plot_every : Z) (w : World E) :
  (0 <= num_episodes)%Z -> (0 < plot_every)%Z ->
  let rates := eps_schedule eps_decay eps_min eps (Z.to_nat num_episodes) in
  runs_on_schedule
    (Sarsa.train fuel env g num_episodes eps eps_min eps_decay alpha gamma
       plot_every w)
    (fun e => Sarsa.generate_sarsa_episode fuel env g e alpha gamma)
    rates (action_space_n env) w /\
  runs_on_schedule
    (Sarsamax.train fuel env g num_episodes eps eps_min eps_decay alpha gamma
       plot_every w)
    (fun e => Sarsamax.generate_sarsa_episode fuel env g e alpha gamma)
    rates (action_space_n env) w /\
  runs_on_schedule
    (ExpectedSarsa.train fuel env g num_episodes eps eps_min eps_decay alpha
       gamma plot_every w)
    (fun e => ExpectedSarsa.generate_sarsa_episode fuel env g e alpha gamma)
    rates (action_space_n env) w /\
  length rates = Z.to_nat num_episodes /\
  (forall i, (i < Z.to_nat num_episodes)%nat ->
             rates !! i = Some (Nat.iter (S i) (decay_eps eps_decay eps_min) eps)) /\
  ((1 <= num_episodes)%Z ->
   rates !! 0%nat = Some (py_max (eps * eps_decay) eps_min)) /\
  (forall i e, rates !! i = Some e -> (S i < Z.to_nat num_episodes)%nat ->
               rates !! S i = Some (py_max (e * eps_decay) eps_min)).
Proof.
  intros Hn Hplot rates.
  assert (Hlookup : forall i, (i < Z.to_nat num_episodes)%nat ->
            rates !! i = Some (Nat.iter (S i) (decay_eps eps_decay eps_min) eps)).
  { intros i Hi. by apply eps_schedule_lookup. }
  split; [by apply train_with_schedule |].
  split; [by apply train_with_schedule |].
  split; [by apply train_with_schedule |].
  split.
  { subst rates. generalize (Z.to_nat num_episodes) eps.
    induction n as [|n IH]; intros e; simpl; [done | by rewrite IH]. }
  split; [exact Hlookup |]. split.
  - intros H1. rewrite Hlookup by lia. reflexivity.
  - intros i e Hi Hlt. rewrite Hlookup in Hi by lia. injection Hi as <-.
    rewrite Hlookup by lia. reflexivity.
Qed.

Lemma train_decays_eps_before_each_episode_witness :
  (0 <= 3)%Z /\ (0 < 1)%Z /\
  runs_on_schedule
    (Sarsa.train 5 (corridor (-1)) {| reward := -1 |} 3 1 (1#100) (9#10)
       (1#10) 1 1 (corridor_world (new_table 2)))
    (fun e => Sarsa.generate_sarsa_episode 5 (corridor (-1))
                {| reward := -1 |} e (1#10) 1)
    (eps_schedule (9#10) (1#100) 1 (Z.to_nat 3)) 2
    (corridor_world (new_table 2)) /\
  eps_schedule (9#10) (1#100) 1 (Z.to_nat 3) !! 0%nat
  = Some (py_max (1 * (9#10)) (1#100)).
Proof.
  split; [lia |]. split; [lia |].
  pose proof (train_decays_eps_before_each_episode 5 (corridor (-1))
                {| reward := -1 |} 3 1 (1#100) (9#10) (1#10) 1 1
                (corridor_world (new_table 2)) ltac:(lia) ltac:(lia))
    as (Hsarsa & _ & _ & _ & _ & Hfirst & _).
  split; [exact Hsarsa | apply Hfirst; lia].
Defined.

(** ** C9: what [train] checks at entry *)










(** ** C2: the update reads [reward] from module scope *)

(** C2.  The result of the update functions is not determined by their
    arguments: [reward] is read from module scope.  For each of the three
    variants, two calls with the same argument tuple
    ([alpha = 1/2], [gamma = 1], an empty two-action table, [state = 0],
    [action = 1], no [next_state]) return [-1/2] when the module-level
    [reward] is [-1] and [-50] when it is [-100].  The reward observed by the
    episode runner is a local of the runner and never reaches the update:
    on the corridor, episodes with step rewards [-1] and [-100] score [-2]
    and [-200] yet leave the same table. *)
Theorem update_result_depends_on_global_reward :
  (result_value (Sarsa.update_sarsa_Q {| reward := -1 |} (1#2) 1 0 1 None
                   (new_table 2)) = Some (0 + (1#2) * (-1 + 1 * 0 - 0)) /\
   result_value (Sarsa.update_sarsa_Q {| reward := -100 |} (1#2) 1 0 1 None
                   (new_table 2)) = Some (0 + (1#2) * (-100 + 1 * 0 - 0))) /\
  (result_value (Sarsamax.update_sarsa_Q {| reward := -1 |} (1#2) 1 0 1 None
                   (new_table 2)) = Some (0 + (1#2) * (-1 + 1 * 0 - 0)) /\
   result_value (Sarsamax.update_sarsa_Q {| reward := -100 |} (1#2) 1 0 1 None
                   (new_table 2)) = Some (0 + (1#2) * (-100 + 1 * 0 - 0))) /\
  (result_value (ExpectedSarsa.update_sarsa_Q {| reward := -1 |} (1#10) 2
                   (1#2) 1 0 1 None (new_table 2))
   = Some (0 + (1#2) * (-1 + 1 * 0 - 0)) /\
   result_value (ExpectedSarsa.update_sarsa_Q {| reward := -100 |} (1#10) 2
                   (1#2) 1 0 1 None (new_table 2))
   = Some (0 + (1#2) * (-100 + 1 * 0 - 0))) /\
  ~ 0 + (1#2) * (-1 + 1 * 0 - 0) == 0 + (1#2) * (-100 + 1 * 0 - 0) /\
  (result_map (fun r => table (snd r))
     (Sarsa.generate_sarsa_episode 5 (corridor (-1)) {| reward := -1 |}
        (9#10) (1#10) 1 (corridor_world (new_table 2)))
   = result_map (fun r => table (snd r))
       (Sarsa.generate_sarsa_episode 5 (corridor (-100)) {| reward := -1 |}
          (9#10) (1#10) 1 (corridor_world (new_table 2))) /\
   result_map fst
     (Sarsa.generate_sarsa_episode 5 (corridor (-1)) {| reward := -1 |}
        (9#10) (1#10) 1 (corridor_world (new_table 2)))
   = Ok (0 + -1 + -1) /\
   result_map fst
     (Sarsa.generate_sarsa_episode 5 (corridor (-100)) {| reward := -1 |}
        (9#10) (1#10) 1 (corridor_world (new_table 2)))
   = Ok (0 + -100 + -100)).
Proof.
  repeat split; try (vm_compute; reflexivity).
  intros H. discriminate H.
Qed.

(** * Properties of whole runs and of the notebook cells *)

(** ** [train] raises nothing on well-formed arguments *)





(** ** The reward histories [train] returns *)

Lemma succ_div_mod (len P : nat) :
  (0 < P)%nat ->
  ((S len mod P = 0 /\ S len / P = S (len / P) /\ S len = S (len / P) * P)
   \/ (S len mod P <> 0 /\ S len / P = len / P))%nat.
Proof.
  intros HP.
  pose proof (Nat.div_mod_eq len P) as Hdm.
  pose proof (Nat.mod_upper_bound len P ltac:(lia)) as Hr.
  set (q := (len / P)%nat) in *. set (r := (len mod P)%nat) in *.
  destruct (decide (S r = P)) as [Heq | Hne].
  - left.
    assert (Hq : (S q = S len / P)%nat).
    { apply (Nat.div_unique (S len) P (S q) 0); lia. }
    assert (Hm : (0 = S len mod P)%nat).
    { apply (Nat.mod_unique (S len) P (S q) 0); lia. }
    lia.
  - right.
    assert (Hq : (q = S len / P)%nat).
    { apply (Nat.div_unique (S len) P q (S r)); lia. }
    assert (Hm : (S r = S len mod P)%nat).
    { apply (Nat.mod_unique (S len) P q (S r)); lia. }
    lia.
Qed.

Lemma deque_append_window (p : Z) (all : list Q) (x : Q) :
  deque_append p (drop (length all - Z.to_nat p) all) x
  = drop (length (all ++ [x]) - Z.to_nat p) (all ++ [x]).
Proof.
  unfold deque_append. set (P := Z.to_nat p).
  rewrite <- drop_app_le by lia.
  rewrite drop_drop. f_equal.
  rewrite length_drop, !length_app. simpl. lia.
Qed.

Lemma block_stable (P j : nat) (all : list Q) (x : Q) :
  (0 < P)%nat -> (j < length all / P)%nat ->
  take P (drop (j * P) (all ++ [x])) = take P (drop (j * P) all).
Proof.
  intros HP Hj.
  pose proof (Nat.div_mod_eq (length all) P) as Hdm.
  assert (Hle : ((j + 1) * P <= length all)%nat) by nia.
  rewrite drop_app_le by lia.
  rewrite take_app_le; [done |]. rewrite length_drop. lia.
Qed.

Lemma block_means_step (p : Z) (N : nat) (all avg : list Q) (score : Q) :
  (0 < p)%Z -> (length all < N)%nat ->
  block_means (Z.to_nat p) all avg ->
  block_means (Z.to_nat p) (all ++ [score])
    (if ((Z.of_nat (length all) + 1) mod p =? 0)%Z
     then deque_append (Z.of_nat N) avg
            (np_mean (drop (length (all ++ [score]) - Z.to_nat p) (all ++ [score])))
     else avg).
Proof.
  intros Hp HN [Hlen Hent]. set (P := Z.to_nat p) in *.
  assert (HP : (0 < P)%nat) by lia.
  assert (Hmod : ((Z.of_nat (length all) + 1) mod p)%Z
                 = Z.of_nat (S (length all) mod P)).
  { rewrite Nat2Z.inj_mod. unfold P. rewrite Z2Nat.id by lia. f_equal. lia. }
  assert (HL : length (all ++ [score]) = S (length all)).
  { rewrite length_app. cbn [length]. lia. }
  rewrite Hmod. unfold block_means. rewrite HL.
  destruct (succ_div_mod (length all) P HP) as [(Hm & Hq & Hfull) | (Hm & Hq)].
  - rewrite Hm. change (Z.of_nat 0 =? 0)%Z with true. cbv iota.
    assert (Hd : deque_append (Z.of_nat N) avg
                   (np_mean (drop (S (length all) - P) (all ++ [score])))
                 = avg ++ [np_mean (drop (S (length all) - P) (all ++ [score]))]).
    { unfold deque_append. rewrite length_app. cbn [length].
      rewrite Nat2Z.id.
      pose proof (Nat.div_mod_eq (length all) P).
      replace (length avg + 1 - N)%nat with 0%nat by nia. reflexivity. }
    rewrite Hd. split.
    + rewrite length_app, Hq, Hlen. cbn [length]. lia.
    + intros j Hj. rewrite Hq in Hj.
      destruct (decide (j < length all / P)%nat) as [Hlt | Hge].
      * rewrite lookup_app_l by lia. rewrite block_stable by done. by apply Hent.
      * assert (j = length avg) as -> by lia.
        rewrite list_lookup_middle by done. do 2 f_equal.
        replace (length avg * P)%nat with (S (length all) - P)%nat by nia.
        rewrite take_ge; [done |]. rewrite length_drop, HL. lia.
  - destruct (Z.eqb_spec (Z.of_nat (S (length all) mod P)) 0); [lia |].
    split; [lia |]. intros j Hj. rewrite Hq in Hj.
    rewrite block_stable by done. by apply Hent.
Qed.

Lemma train_loop_history {E} (episode : Q -> M (World E) Q)
    (eps_min eps_decay : Q) (num_episodes plot_every : Z) (n : nat) (i : Z)
    (eps : Q) (all tmp avg all' avg' : list Q) (w w' : World E) :
  (0 < plot_every)%Z ->
  i = (Z.of_nat (length all) + 1)%Z ->
  tmp = drop (length all - Z.to_nat plot_every) all ->
  block_means (Z.to_nat plot_every) all avg ->
  (length all + n <= Z.to_nat num_episodes)%nat ->
  train_loop episode eps_min eps_decay num_episodes plot_every n i eps
    all tmp avg w = Ok ((all', avg'), w') ->
  length all' = (length all + n)%nat /\
  block_means (Z.to_nat plot_every) all' avg'.
Proof.
  intros Hp. revert i eps all tmp avg w.
  induction n as [|n IH]; intros i eps all tmp avg w Hi Htmp Hblock HN Hrun.
  - simpl in Hrun. injection Hrun as <- <- <-. split; [lia | done].
  - simpl in Hrun.
    apply bind_inv_Ok in Hrun as (score & w1 & _ & Hrun).
    destruct (Z.eqb_spec plot_every 0); [lia |].
    apply IH in Hrun as [Hlen Hb].
    + split; [| done]. rewrite Hlen, length_app. simpl. lia.
    + rewrite length_app. simpl. lia.
    + subst tmp. apply deque_append_window.
    + subst tmp i. rewrite deque_append_window.
      rewrite <- (Z2Nat.id num_episodes) at 1 by lia.
      apply block_means_step; [done | lia | done].
    + rewrite length_app. simpl. lia.
Qed.

Lemma train_with_histories {E} (episode : Q -> M (World E) Q)
    (eps_min eps_decay : Q) (num_episodes plot_every nA : Z) (eps : Q)
    (w : World E) :
  (0 <= num_episodes)%Z -> (0 < plot_every)%Z ->
  histories_ok num_episodes plot_every
    (train_with episode eps_min eps_decay num_episodes plot_every nA eps w).
Proof.
  intros Hn Hp d al av w' H.
  unfold train_with in H.
  apply bind_inv_Ok in H as ([] & w0 & _ & H).
  apply bind_inv_Ok in H as (tmp & w1 & Htmp & H).
  apply bind_inv_Ok in H as (avg & w2 & Havg & H).
  apply bind_inv_Ok in H as ([al' av'] & w3 & Hloop & H).
  simpl in H. injection H as _ <- <- _.
  unfold deque_new in Htmp, Havg.
  destruct (plot_every <? 0)%Z; [discriminate |].
  destruct (num_episodes <? 0)%Z; [discriminate |].
  injection Htmp as <- _. injection Havg as <- _.
  assert (Hb0 : block_means (Z.to_nat plot_every) [] []).
  { split; simpl; [by rewrite Nat.Div0.div_0_l |].
    intros j Hj. rewrite Nat.Div0.div_0_l in Hj. lia. }
  assert (HN : (length ([] : list Q) + Z.to_nat num_episodes
                <= Z.to_nat num_episodes)%nat) by (simpl; lia).
  destruct (train_loop_history episode eps_min eps_decay num_episodes
              plot_every (Z.to_nat num_episodes) 1 eps [] [] [] al' av' _ w3
              Hp eq_refl eq_refl Hb0 HN Hloop) as [Hlen [Hav Hent]].
  simpl in Hlen. split; [done |].
  rewrite Hav, Hlen. split.
  - by rewrite Z2Nat.inj_div by lia.
  - intros j Hj. apply Hent. by rewrite Hlen.
Qed.

(** X2. A [train] run that finishes returns one score per episode in
    [all_rewards] and [num_episodes // plot_every] entries in [avg_rewards];
    the [j]-th of them is the mean of the [j]-th block of [plot_every]
    consecutive scores (the [tmp_rewards] window at that moment). *)
Theorem train_reward_histories {E} (fuel : nat) (env : Env E) (g : Globals)
    (num_episodes : Z) (eps eps_min eps_decay alpha gamma : Q)
    (plot_every : Z) (w : World E) :
  (0 <= num_episodes)%Z -> (0 < plot_every)%Z ->
  histories_ok num_episodes plot_every
    (Sarsa.train fuel env g num_episodes eps eps_min eps_decay alpha gamma
       plot_every w) /\
  histories_ok num_episodes plot_every
    (Sarsamax.train fuel env g num_episodes eps eps_min eps_decay alpha gamma
       plot_every w) /\
  histories_ok num_episodes plot_every
    (ExpectedSarsa.train fuel env g num_episodes eps eps_min eps_decay alpha
       gamma plot_every w).
Proof.
  intros Hn Hp. unfold Sarsa.train, Sarsamax.train, ExpectedSarsa.train.
  split; [| split]; by apply train_with_histories.
Qed.

Lemma train_reward_histories_witness :
  (0 <= 5)%Z /\ (0 < 2)%Z /\
  (exists d al av w',
      Sarsamax.train 5 (corridor (-1)) {| reward := -1 |} 5 1 (1#100) (9#10)
        (1#10) 1 2 (corridor_world (new_table 2)) = Ok ((d, al, av), w')
      /\ length al = 5%nat /\ length av = 2%nat) /\
  histories_ok 5 2
    (Sarsamax.train 5 (corridor (-1)) {| reward := -1 |} 5 1 (1#100) (9#10)
       (1#10) 1 2 (corridor_world (new_table 2))).
Proof.
  split; [lia |]. split; [lia |]. split.
  - do 4 eexists. split; [vm_compute; reflexivity |]. split; reflexivity.
  - apply (train_reward_histories 5 (corridor (-1)) {| reward := -1 |} 5 1
             (1#100) (9#10) (1#10) 1 2 (corridor_world (new_table 2))); lia.
Defined.

(** ** Bounds of the exploration schedule *)

Lemma py_max_ge_r (a b : Q) : b <= py_max a b.
Proof.
  unfold py_max. destruct (Qltb a b) eqn:H; [lra |]. by apply Qltb_ge in H.
Qed.

Lemma py_max_ge_l (a b : Q) : a <= py_max a b.
Proof.
  unfold py_max. destruct (Qltb a b) eqn:H; [| lra].
  apply Qltb_lt in H. lra.
Qed.

Lemma py_max_lub (a b c : Q) : a <= c -> b <= c -> py_max a b <= c.
Proof. unfold py_max. by destruct (Qltb a b). Qed.

Lemma decay_eps_le (eps_decay eps_min e : Q) :
  0 <= eps_decay -> eps_decay <= 1 -> 0 <= eps_min -> eps_min <= e ->
  decay_eps eps_decay eps_min e <= e.
Proof.
  intros Hd0 Hd1 Hm He. unfold decay_eps. apply py_max_lub; [nra | done].
Qed.

Lemma decay_eps_le_max (eps_decay eps_min e : Q) :
  0 <= eps_decay -> eps_decay <= 1 -> 0 <= eps_min ->
  decay_eps eps_decay eps_min e <= py_max e eps_min.
Proof.
  intros Hd0 Hd1 Hm. unfold decay_eps.
  pose proof (py_max_ge_l e eps_min). pose proof (py_max_ge_r e eps_min).
  apply py_max_lub; [| done].
  destruct (Qlt_le_dec e 0); nra.
Qed.

Lemma eps_schedule_bounds (eps_decay eps_min : Q) (n : nat) (eps : Q)
    (i : nat) (e : Q) :
  0 <= eps_decay -> eps_decay <= 1 -> 0 <= eps_min ->
  eps_schedule eps_decay eps_min eps n !! i = Some e ->
  eps_min <= e /\ e <= py_max eps eps_min.
Proof.
  intros Hd0 Hd1 Hm. revert eps i.
  induction n as [|n IH]; intros eps i Hi; [done |].
  destruct i as [|i]; simpl in Hi.
  - injection Hi as <-. split; [apply py_max_ge_r | by apply decay_eps_le_max].
  - apply IH in Hi as [Hlo Hhi]. split; [done |].
    pose proof (py_max_ge_r (eps * eps_decay) eps_min) as Hge.
    fold (decay_eps eps_decay eps_min eps) in Hge.
    pose proof (decay_eps_le_max eps_decay eps_min eps Hd0 Hd1 Hm).
    assert (py_max (decay_eps eps_decay eps_min eps) eps_min
            <= py_max eps eps_min).
    { apply py_max_lub; [done | apply py_max_ge_r]. }
    lra.
Qed.

Lemma length_eps_schedule (eps_decay eps_min eps : Q) (n : nat) :
  length (eps_schedule eps_decay eps_min eps n) = n.
Proof.
  revert eps. induction n as [|n IH]; intros eps; simpl; [done |].
  by rewrite IH.
Qed.

(** X3. With [0 <= eps_decay <= 1] and [0 <= eps_min], every rate [train]
    hands to an episode lies between [eps_min] and [max(eps, eps_min)], and
    the rate of the next episode is not larger. *)
Theorem exploration_rate_bounded_and_nonincreasing
    (eps_decay eps_min eps : Q) (n : nat) :
  0 <= eps_decay -> eps_decay <= 1 -> 0 <= eps_min ->
  forall i e,
    eps_schedule eps_decay eps_min eps n !! i = Some e ->
    eps_min <= e /\ e <= py_max eps eps_min /\
    forall e', eps_schedule eps_decay eps_min eps n !! S i = Some e' ->
               e' <= e.
Proof.
  intros Hd0 Hd1 Hm i e Hi.
  destruct (eps_schedule_bounds eps_decay eps_min n eps i e Hd0 Hd1 Hm Hi)
    as [Hlo Hhi].
  split; [done |]. split; [done |].
  intros e' Hi'.
  assert (Hlt : (S i < n)%nat).
  { apply lookup_lt_Some in Hi'. by rewrite length_eps_schedule in Hi'. }
  rewrite eps_schedule_lookup in Hi by lia.
  rewrite eps_schedule_lookup in Hi' by lia.
  injection Hi as <-. injection Hi' as <-.
  change (Nat.iter (S (S i)) (decay_eps eps_decay eps_min) eps)
    with (decay_eps eps_decay eps_min
            (Nat.iter (S i) (decay_eps eps_decay eps_min) eps)).
  by apply decay_eps_le.
Qed.

Lemma exploration_rate_bounded_and_nonincreasing_witness :
  0 <= 9#10 /\ 9#10 <= 1 /\ 0 <= 1#100 /\
  eps_schedule (9#10) (1#100) 1 3 !! 1%nat = Some (81#100) /\
  1#100 <= 81#100 /\ 81#100 <= py_max 1 (1#100) /\
  forall e', eps_schedule (9#10) (1#100) 1 3 !! 2%nat = Some e' -> e' <= 81#100.
Proof.
  assert (H : eps_schedule (9#10) (1#100) 1 3 !! 1%nat = Some (81#100))
    by reflexivity.
  split; [lra |]. split; [lra |]. split; [lra |]. split; [exact H |].
  apply (exploration_rate_bounded_and_nonincreasing (9#10) (1#100) 1 3
           ltac:(lra) ltac:(lra) ltac:(lra) 1%nat (81#100) H).
Defined.

(** ** The action [eps_greedy] selects *)

Lemma argmax_aux_first (t pre : list Q) (best : Q) (besti : nat) :
  pre !! besti = Some best ->
  (forall x, x ∈ pre -> x <= best) ->
  (forall i x, (i < besti)%nat -> pre !! i = Some x -> x < best) ->
  exists m, (pre ++ t) !! argmax_aux t (length pre) best besti = Some m
            /\ (forall x, x ∈ pre ++ t -> x <= m)
            /\ (forall i x, (i < argmax_aux t (length pre) best besti)%nat ->
                            (pre ++ t) !! i = Some x -> x < m).
Proof.
  revert pre best besti.
  induction t as [|x t IH]; intros pre best besti Hb Hmax Hfirst; simpl.
  - exists best. rewrite app_nil_r. auto.
  - destruct (Qltb best x) eqn:Hlt.
    + apply Qltb_lt in Hlt.
      destruct (IH (pre ++ [x]) x (length pre)) as (m & Hm & Hall & Hf).
      * rewrite lookup_app_r by lia. by rewrite Nat.sub_diag.
      * intros y Hy. apply elem_of_app in Hy as [Hy | Hy].
        -- specialize (Hmax y Hy). lra.
        -- apply list_elem_of_singleton in Hy. subst. lra.
      * intros i y Hi Hy. rewrite lookup_app_l in Hy by done.
        assert (y <= best) by (apply Hmax; apply list_elem_of_lookup; eauto).
        lra.
      * exists m. rewrite length_app, Nat.add_1_r in Hm, Hf.
        rewrite <- app_assoc in Hm, Hall, Hf. auto.
    + apply Qltb_ge in Hlt.
      destruct (IH (pre ++ [x]) best besti) as (m & Hm & Hall & Hf).
      * apply lookup_app_l_Some. exact Hb.
      * intros y Hy. apply elem_of_app in Hy as [Hy | Hy]; [auto |].
        apply list_elem_of_singleton in Hy. by subst.
      * intros i y Hi Hy. apply (Hfirst i y Hi).
        rewrite lookup_app_l in Hy; [done |].
        apply lookup_lt_Some in Hb. lia.
      * exists m. rewrite length_app, Nat.add_1_r in Hm, Hf.
        rewrite <- app_assoc in Hm, Hall, Hf. auto.
Qed.

Lemma np_argmax_first (v : list Q) :
  (0 < length v)%nat ->
  exists j m, np_argmax v = Ok j /\ v !! j = Some m
              /\ (forall x, x ∈ v -> x <= m)
              /\ (forall i x, (i < j)%nat -> v !! i = Some x -> x < m).
Proof.
  destruct v as [|x t]; simpl; [lia | intros _].
  destruct (argmax_aux_first t [x] x 0) as (m & Hm & Hall & Hf).
  - reflexivity.
  - intros y Hy. apply list_elem_of_singleton in Hy. subst. lra.
  - intros i y Hi. lia.
  - exists (argmax_aux t 1 x 0), m. auto.
Qed.

Lemma wf_table_0_5 : wf table_0_5.
Proof. apply wf_store, wf_new_table. lia. Qed.

(** X4. On a well-formed table [eps_greedy] returns an action below [nA].
    When the uniform draw is below [eps] the action is the next integer draw
    reduced to the range; otherwise it is the first index holding the largest
    value of the row of [state], hence action [0] for a state with no row. *)
Theorem eps_greedy_selects {E} (eps : Q) (state : State) (w : World E) :
  wf (table w) ->
  exists a w',
    eps_greedy eps state (zeros_n (table w)) w = Ok (a, w') /\
    (a < Z.to_nat (zeros_n (table w)))%nat /\
    (uniform (random w) (cursor (random w)) < eps ->
     Z.of_nat a
     = (integers (random w) (S (cursor (random w))) mod zeros_n (table w))%Z) /\
    (eps <= uniform (random w) (cursor (random w)) ->
     first_greedy (table w) state a /\
     (items (table w) !! Some state = None -> a = 0%nat)).
Proof.
  intros Hwf. pose proof Hwf as [Hn _]. unfold eps_greedy.
  rewrite (bind_Ok _ _ w _ _ eq_refl).
  destruct (Qltb _ eps) eqn:Hb.
  - apply Qltb_lt in Hb. unfold np_random_randint. simpl.
    destruct (Z.leb_spec (zeros_n (table w)) 0); [lia |].
    pose proof (Z.mod_pos_bound
                  (integers (random w) (S (cursor (random w))))
                  (zeros_n (table w)) Hn) as Hmod.
    eexists. eexists. split; [reflexivity |]. split; [lia |].
    split; [intros _; lia | intros Hge; lra].
  - apply Qltb_ge in Hb.
    destruct (np_argmax_first (row (table w) (Some state)))
      as (j & m & Hj & Hm & Hall & Hfirst).
    { rewrite length_row by done. lia. }
    assert (Hn0 : (0 <= zeros_n (table w))%Z) by lia.
    unfold on_table. simpl.
    rewrite (bind_Ok _ _ _ _ _ (getitem_touch (Some state) (table w) Hn0)).
    rewrite Hj. simpl. eexists. eexists. split; [reflexivity |].
    split. { apply lookup_lt_Some in Hm. by rewrite length_row in Hm. }
    split; [intros Hlt; lra |]. intros _. split.
    + exists m. split; [exact Hm |]. split.
      * intros a' x Hx. apply Hall. apply list_elem_of_lookup. by exists a'.
      * intros a' x Ha' Hx. by apply (Hfirst a' x).
    + intros Hnone.
      destruct j as [|j]; [done |]. exfalso.
      assert (H0 : row (table w) (Some state) !! 0%nat = Some 0).
      { unfold row. rewrite Hnone. apply lookup_replicate_2. lia. }
      pose proof (Hfirst 0%nat 0 ltac:(lia) H0) as Hlt0.
      assert (Hm0 : m = 0).
      { unfold row in Hm. rewrite Hnone in Hm.
        by apply lookup_replicate in Hm as [-> _]. }
      subst m. lra.
Qed.

Lemma eps_greedy_selects_witness :
  wf (table world_0_5) /\
  exists a w',
    eps_greedy 0 1 (zeros_n (table world_0_5)) world_0_5 = Ok (a, w') /\
    (a < Z.to_nat (zeros_n (table world_0_5)))%nat /\
    (uniform (random world_0_5) (cursor (random world_0_5)) < 0 ->
     Z.of_nat a
     = (integers (random world_0_5) (S (cursor (random world_0_5)))
        mod zeros_n (table world_0_5))%Z) /\
    (0 <= uniform (random world_0_5) (cursor (random world_0_5)) ->
     first_greedy (table world_0_5) 1 a /\
     (items (table world_0_5) !! Some 1%Z = None -> a = 0%nat)).
Proof.
  split; [exact wf_table_0_5 |].
  exact (eps_greedy_selects 0 1 world_0_5 wf_table_0_5).
Defined.

(** ** The rewards of [env.step] reach the score only *)

Lemma final_world_bind {S A1 A2 B1 B2} (m1 : M S A1) (m2 : M S A2)
    (k1 : A1 -> M S B1) (k2 : A2 -> M S B2) (s : S) :
  final_world (m1 s) = final_world (m2 s) ->
  (forall a1 a2 s', m1 s = Ok (a1, s') -> m2 s = Ok (a2, s') ->
                    final_world (k1 a1 s') = final_world (k2 a2 s')) ->
  final_world (bind m1 k1 s) = final_world (bind m2 k2 s).
Proof.
  unfold bind, final_world.
  destruct (m1 s) as [[a1 s1]| e1 |]; destruct (m2 s) as [[a2 s2]| e2 |];
    simpl; intros H Hk; try discriminate; try done.
  injection H as <-. by apply Hk.
Qed.

Lemma final_world_bind_same {S A B1 B2} (m : M S A)
    (k1 : A -> M S B1) (k2 : A -> M S B2) (s : S) :
  (forall a s', m s = Ok (a, s') ->
                final_world (k1 a s') = final_world (k2 a s')) ->
  final_world (bind m k1 s) = final_world (bind m k2 s).
Proof.
  unfold bind, final_world. destruct (m s) as [[a s1]| e |]; simpl; auto.
Qed.

Lemma step_same_dynamics {E} (env1 env2 : Env E) (a : Action) (w : World E) :
  same_dynamics env1 env2 ->
  exists ns r1 r2 done w',
    step env1 a w = Ok ((ns, r1, done), w') /\
    step env2 a w = Ok ((ns, r2, done), w').
Proof.
  intros (_ & _ & Hstep). specialize (Hstep a (env_state w)).
  unfold step, forget_reward in *.
  destruct (env_step env1 a (env_state w)) as [[[ns1 r1] d1] e1].
  destruct (env_step env2 a (env_state w)) as [[[ns2 r2] d2] e2].
  simpl in Hstep. injection Hstep as -> -> ->. eauto 10.
Qed.

Lemma reset_same_dynamics {E} (env1 env2 : Env E) (w : World E) :
  same_dynamics env1 env2 -> reset env1 w = reset env2 w.
Proof. intros (_ & Hreset & _). unfold reset. by rewrite Hreset. Qed.

Section Loops.

Context {E : Type}.

Variables env1 env2 : Env E.

Hypothesis Hdyn : same_dynamics env1 env2.

Variable g : Globals.

Variables eps alpha gamma : Q.

Variable nA : Z.

Lemma sarsa_loop_ignores_rewards (fuel : nat) (state : State) (action : Action)
    (score1 score2 : Q) (w : World E) :
  final_world (Sarsa.episode_loop fuel env1 g eps alpha gamma nA state action score1 w)
  = final_world (Sarsa.episode_loop fuel env2 g eps alpha gamma nA state action score2 w).
Proof.
  revert state action score1 score2 w.
  induction fuel as [|fuel IH]; intros state action score1 score2 w; [done |].
  simpl.
  destruct (step_same_dynamics env1 env2 action w Hdyn)
    as (ns & r1 & r2 & done & w1 & H1 & H2).
  rewrite (bind_Ok _ _ _ _ _ H1), (bind_Ok _ _ _ _ _ H2).
  apply final_world_bind_same. intros na w2 _.
  destruct done; simpl.
  - apply final_world_bind_same. intros [] w3 _. reflexivity.
  - apply final_world_bind_same. intros [] w3 _. apply IH.
Qed.

Lemma sarsamax_loop_ignores_rewards (fuel : nat) (state : State)
    (score1 score2 : Q) (w : World E) :
  final_world (Sarsamax.episode_loop fuel env1 g eps alpha gamma nA state score1 w)
  = final_world (Sarsamax.episode_loop fuel env2 g eps alpha gamma nA state score2 w).
Proof.
  revert state score1 score2 w.
  induction fuel as [|fuel IH]; intros state score1 score2 w; [done |].
  simpl. apply final_world_bind_same. intros a w1 _.
  destruct (step_same_dynamics env1 env2 a w1 Hdyn)
    as (ns & r1 & r2 & done & w2 & H1 & H2).
  rewrite (bind_Ok _ _ _ _ _ H1), (bind_Ok _ _ _ _ _ H2).
  destruct done; simpl.
  - apply final_world_bind_same. intros [] w3 _. reflexivity.
  - apply final_world_bind_same. intros [] w3 _. apply IH.
Qed.

Lemma expected_loop_ignores_rewards (fuel : nat) (state : State)
    (score1 score2 : Q) (w : World E) :
  final_world (ExpectedSarsa.episode_loop fuel env1 g eps alpha gamma nA state score1 w)
  = final_world (ExpectedSarsa.episode_loop fuel env2 g eps alpha gamma nA state score2 w).
Proof.
  revert state score1 score2 w.
  induction fuel as [|fuel IH]; intros state score1 score2 w; [done |].
  simpl. apply final_world_bind_same. intros a w1 _.
  destruct (step_same_dynamics env1 env2 a w1 Hdyn)
    as (ns & r1 & r2 & done & w2 & H1 & H2).
  rewrite (bind_Ok _ _ _ _ _ H1), (bind_Ok _ _ _ _ _ H2).
  destruct done; simpl.
  - apply final_world_bind_same. intros [] w3 _. reflexivity.
  - apply final_world_bind_same. intros [] w3 _. apply IH.
Qed.

End Loops.

Lemma episodes_ignore_rewards {E} (env1 env2 : Env E) (g : Globals)
    (fuel : nat) (eps alpha gamma : Q) (w : World E) :
  same_dynamics env1 env2 ->
  final_world (Sarsa.generate_sarsa_episode fuel env1 g eps alpha gamma w)
  = final_world (Sarsa.generate_sarsa_episode fuel env2 g eps alpha gamma w) /\
  final_world (Sarsamax.generate_sarsa_episode fuel env1 g eps alpha gamma w)
  = final_world (Sarsamax.generate_sarsa_episode fuel env2 g eps alpha gamma w) /\
  final_world (ExpectedSarsa.generate_sarsa_episode fuel env1 g eps alpha gamma w)
  = final_world (ExpectedSarsa.generate_sarsa_episode fuel env2 g eps alpha gamma w).
Proof.
  intros Hdyn. pose proof Hdyn as (HnA & _ & _).
  unfold Sarsa.generate_sarsa_episode, Sarsamax.generate_sarsa_episode,
    ExpectedSarsa.generate_sarsa_episode.
  rewrite <- HnA.
  split; [| split];
    (apply final_world_bind;
     [by rewrite (reset_same_dynamics env1 env2 w Hdyn) |
      intros s s2 w1 Hr1 Hr2;
      rewrite (reset_same_dynamics env1 env2 w Hdyn) in Hr1;
      rewrite Hr1 in Hr2; injection Hr2 as <-]).
  - apply final_world_bind_same. intros a w2 _.
    by apply sarsa_loop_ignores_rewards.
  - by apply sarsamax_loop_ignores_rewards.
  - by apply expected_loop_ignores_rewards.
Qed.

Lemma train_loop_ignores_scores {E} (episode1 episode2 : Q -> M (World E) Q)
    (eps_min eps_decay : Q) (num_episodes plot_every : Z) (n : nat) (i : Z)
    (eps : Q) (all1 tmp1 avg1 all2 tmp2 avg2 : list Q) (w : World E) :
  (forall e w0, final_world (episode1 e w0) = final_world (episode2 e w0)) ->
  final_world (train_loop episode1 eps_min eps_decay num_episodes plot_every
                 n i eps all1 tmp1 avg1 w)
  = final_world (train_loop episode2 eps_min eps_decay num_episodes plot_every
                   n i eps all2 tmp2 avg2 w).
Proof.
  intros Hep. revert i eps all1 tmp1 avg1 all2 tmp2 avg2 w.
  induction n as [|n IH]; intros; [done |]. simpl.
  apply final_world_bind; [apply Hep |]. intros s1 s2 w1 _ _.
  destruct (plot_every =? 0)%Z; [done |]. apply IH.
Qed.

Lemma train_with_ignores_scores {E} (episode1 episode2 : Q -> M (World E) Q)
    (eps_min eps_decay : Q) (num_episodes plot_every nA : Z) (eps : Q)
    (w : World E) :
  (forall e w0, final_world (episode1 e w0) = final_world (episode2 e w0)) ->
  learned (train_with episode1 eps_min eps_decay num_episodes plot_every nA eps w)
  = learned (train_with episode2 eps_min eps_decay num_episodes plot_every nA eps w).
Proof.
  intros Hep. unfold train_with.
  rewrite !(bind_Ok _ _ w (fresh_world nA w) tt) by reflexivity.
  unfold deque_new.
  destruct (plot_every <? 0)%Z; [done |].
  rewrite !(bind_Ok _ _ (fresh_world nA w) (fresh_world nA w) []) by reflexivity.
  destruct (num_episodes <? 0)%Z; [done |].
  rewrite !(bind_Ok _ _ (fresh_world nA w) (fresh_world nA w) []) by reflexivity.
  pose proof (train_loop_ignores_scores episode1 episode2 eps_min eps_decay
                num_episodes plot_every (Z.to_nat num_episodes) 1 eps
                [] [] [] [] [] [] (fresh_world nA w) Hep) as Hloop.
  unfold bind, learned, final_world in *.
  destruct (train_loop episode1 _ _ _ _ _ _ _ _ _ _ _) as [[[a1 v1] w1]| e1 |];
    destruct (train_loop episode2 _ _ _ _ _ _ _ _ _ _ _) as [[[a2 v2] w2]| e2 |];
    simpl in *; try discriminate; try done.
  all: try (by injection Hloop as ->).

Qed.

(** X5. The rewards [env.step] returns reach the score only: two environments
    with the same action count, resets, successor states and [done] flags
    leave the same table and the same final world behind after [train],
    whatever rewards they emit (the updates read the module-level [reward]). *)
Theorem learned_table_ignores_observed_rewards {E} (env1 env2 : Env E)
    (g : Globals) (fuel : nat) (num_episodes : Z)
    (eps eps_min eps_decay alpha gamma : Q) (plot_every : Z) (w : World E) :
  same_dynamics env1 env2 ->
  learned (Sarsa.train fuel env1 g num_episodes eps eps_min eps_decay alpha
             gamma plot_every w)
  = learned (Sarsa.train fuel env2 g num_episodes eps eps_min eps_decay alpha
               gamma plot_every w) /\
  learned (Sarsamax.train fuel env1 g num_episodes eps eps_min eps_decay alpha
             gamma plot_every w)
  = learned (Sarsamax.train fuel env2 g num_episodes eps eps_min eps_decay
               alpha gamma plot_every w) /\
  learned (ExpectedSarsa.train fuel env1 g num_episodes eps eps_min eps_decay
             alpha gamma plot_every w)
  = learned (ExpectedSarsa.train fuel env2 g num_episodes eps eps_min
               eps_decay alpha gamma plot_every w).
Proof.
  intros Hdyn. pose proof Hdyn as (HnA & _ & _).
  unfold Sarsa.train, Sarsamax.train, ExpectedSarsa.train. rewrite <- HnA.
  split; [| split]; apply train_with_ignores_scores; intros e w0;
    by apply (episodes_ignore_rewards env1 env2 g fuel e alpha gamma w0).
Qed.

Lemma corridor_same_dynamics (r1 r2 : Q) : same_dynamics (corridor r1) (corridor r2).
Proof.
  split; [done |]. split; [done |]. intros a e. unfold forget_reward. simpl.
  destruct (a =? 1)%nat; [| done]. by destruct (e =? 1)%Z.
Qed.

Lemma learned_table_ignores_observed_rewards_witness :
  same_dynamics (corridor (-1)) (corridor (-100)) /\
  learned (Sarsa.train 5 (corridor (-1)) {| reward := -1 |} 3 1 (1#100) (9#10)
             (1#10) 1 1 (corridor_world (new_table 2)))
  = learned (Sarsa.train 5 (corridor (-100)) {| reward := -1 |} 3 1 (1#100)
               (9#10) (1#10) 1 1 (corridor_world (new_table 2))) /\
  result_map (fun r => snd (fst (fst r)))
    (Sarsa.train 5 (corridor (-1)) {| reward := -1 |} 3 1 (1#100) (9#10)
       (1#10) 1 1 (corridor_world (new_table 2)))
  <> result_map (fun r => snd (fst (fst r)))
       (Sarsa.train 5 (corridor (-100)) {| reward := -1 |} 3 1 (1#100) (9#10)
          (1#10) 1 1 (corridor_world (new_table 2))).
Proof.
  split; [apply corridor_same_dynamics |]. split.
  - apply (learned_table_ignores_observed_rewards (corridor (-1))
             (corridor (-100)) {| reward := -1 |} 5 3 1 (1#100) (9#10) (1#10)
             1 1 (corridor_world (new_table 2))
             (corridor_same_dynamics (-1) (-100))).
  - vm_compute. discriminate.
Defined.

(** ** Exact results of the table statements *)

Lemma setitem2_inv_store (k : option Z) (a : Action) (x : Q) (d d' : defaultdict) :
  setitem2 k a x d = Ok (tt, d') ->
  d' = store k a x d /\ (a < length (row d k))%nat.
Proof.
  unfold setitem2. intros H.
  apply bind_inv_Ok in H as (v & d1 & Hget & H).
  apply getitem_inv in Hget as [-> ->].
  apply bind_inv_Ok in H as (v' & d2 & Hset & H).
  apply lift_result_inv in Hset as [Hset ->].
  unfold np_setitem in Hset. case_decide as Ha; [| discriminate].
  injection Hset as <-. injection H as <-. split; [| done].
  unfold store. f_equal; [apply zeros_n_touch |].
  unfold touch. destruct (items d !! k); [done |]. simpl.
  apply insert_insert_eq.
Qed.

Lemma td_tail_inv (g : Globals) (alpha gamma Qsa : Q) (state : State)
    (action : Action) (d d' : defaultdict) (x : Q) :
  (let! q1 := getitem2 (Some state) action in
   let! q2 := getitem2 (Some state) action in
   ret (q1 + alpha * (reward g + gamma * Qsa - q2))) d = Ok (x, d') ->
  exists q, peek d (Some state) action = Some q /\
            x = q + alpha * (reward g + gamma * Qsa - q) /\
            d' = touch (Some state) d.
Proof.
  intros H.
  apply bind_inv_Ok in H as (q1 & d1 & H1 & H).
  apply getitem2_inv in H1 as [-> Hq1].
  apply bind_inv_Ok in H as (q2 & d2 & H2 & H).
  apply getitem2_inv in H2 as [-> Hq2].
  rewrite (peek_same_view _ _ _ _ (same_view_touch _ _)) in Hq2.
  assert (q2 = q1) as -> by congruence.
  injection H as <- <-. exists q1. by rewrite touch_idemp.
Qed.

Lemma assign_td_inv (boot : M defaultdict Q) (g : Globals) (alpha gamma : Q)
    (state : State) (action : Action) (d d' : defaultdict) :
  (forall t d0, boot d = Ok (t, d0) -> same_view d d0) ->
  assign_Q state action
    (let! Qsa := boot in
     let! q1 := getitem2 (Some state) action in
     let! q2 := getitem2 (Some state) action in
     ret (q1 + alpha * (reward g + gamma * Qsa - q2))) d = Ok (tt, d') ->
  exists t d0, boot d = Ok (t, d0) /\ td_step g alpha gamma state action d d0 d' t.
Proof.
  intros Hview H. unfold assign_Q in H.
  apply bind_inv_Ok in H as (x & d2 & Hupd & Hset).
  apply bind_inv_Ok in Hupd as (t & d0 & Hboot & Htail).
  apply td_tail_inv in Htail as (q & Hq & -> & ->).
  apply setitem2_inv_store in Hset as [-> _].
  specialize (Hview t d0 Hboot).
  exists t, d0. split; [done |]. exists q.
  by rewrite (peek_same_view _ _ _ _ Hview) in Hq.
Qed.

Lemma sarsa_bootstrap_inv (next : option (State * Action)) (d d0 : defaultdict)
    (t : Q) :
  Sarsa.bootstrap next d = Ok (t, d0) ->
  match next with
  | Some (ns, na) => d0 = touch (Some ns) d /\ peek d (Some ns) na = Some t
  | None => d0 = d /\ t = 0
  end.
Proof.
  destruct next as [[ns na]|]; simpl.
  - apply getitem2_inv.
  - by intros [= <- <-].
Qed.

Lemma sarsamax_bootstrap_inv (next_state : option State) (d d0 : defaultdict)
    (t : Q) :
  Sarsamax.bootstrap next_state d = Ok (t, d0) ->
  d0 = touch next_state d /\
  match next_state with
  | Some ns => exists na, peek d (Some ns) na = Some t
  | None => t = 0
  end.
Proof.
  unfold Sarsamax.bootstrap. intros H.
  apply bind_inv_Ok in H as (v & d1 & Hget & H).
  apply getitem_inv in Hget as [-> ->].
  apply bind_inv_Ok in H as (na & d1 & Harg & H).
  apply lift_result_inv in Harg as [_ ->].
  destruct next_state as [ns|].
  - apply getitem2_inv in H as [-> Hpeek]. rewrite touch_idemp.
    split; [done |]. exists na.
    by rewrite (peek_same_view _ _ _ _ (same_view_touch _ _)) in Hpeek.
  - by injection H as <- <-.
Qed.

Lemma expected_bootstrap_inv (eps : Q) (nA : Z) (next_state : option State)
    (d d0 : defaultdict) (t : Q) :
  ExpectedSarsa.bootstrap eps nA next_state d = Ok (t, d0) ->
  match next_state with
  | Some ns =>
      d0 = touch (Some ns) d /\ (0 < nA)%Z /\
      exists best,
        t = sumQ (zip_with Qmult (row d (Some ns))
                    (<[best := 1 - eps + eps / inject_Z nA]>
                       (replicate (Z.to_nat nA) (1 * eps / inject_Z nA))))
  | None => d0 = d /\ t = 0
  end.
Proof.
  destruct next_state as [ns|]; simpl; [| by intros [= <- <-]].
  intros H.
  apply bind_inv_Ok in H as (policy & d1 & Hpol & H).
  unfold ExpectedSarsa.policy_vector in Hpol.
  apply bind_inv_Ok in Hpol as (ones & d2 & Hones & Hpol).
  apply lift_result_inv in Hones as [Hones ->].
  apply bind_inv_Ok in Hpol as (mass & d2 & Hmass & Hpol).
  apply lift_result_inv in Hmass as [Hmass ->].
  apply bind_inv_Ok in Hpol as (v & d2 & Hget & Hpol).
  apply getitem_inv in Hget as [-> ->].
  apply bind_inv_Ok in Hpol as (best & d2 & Hbest & Hpol).
  apply lift_result_inv in Hbest as [_ ->].
  apply lift_result_inv in Hpol as [Hset ->].
  apply bind_inv_Ok in H as (v & d2 & Hget & H).
  apply getitem_inv in Hget as [-> ->].
  apply lift_result_inv in H as [Hdot ->].
  rewrite touch_idemp, row_touch in *.
  unfold np_ones in Hones. destruct (Z.ltb_spec nA 0); [discriminate |].
  injection Hones as <-.
  unfold ExpectedSarsa.greedy_mass in Hmass.
  destruct (Z.eqb_spec nA 0); [discriminate |]. injection Hmass as <-.
  unfold np_setitem in Hset. case_decide; [| discriminate].
  injection Hset as <-.
  unfold np_dot in Hdot. case_decide; [| discriminate]. injection Hdot as <-.
  split; [done |]. split; [lia |]. exists best. by rewrite fmap_replicate.
Qed.

Lemma sarsa_assign_inv (g : Globals) (alpha gamma : Q) (state : State)
    (action : Action) (next : option (State * Action)) (d d' : defaultdict) :
  assign_Q state action (Sarsa.update_sarsa_Q g alpha gamma state action next) d
  = Ok (tt, d') ->
  exists t d0, Sarsa.bootstrap next d = Ok (t, d0)
               /\ td_step g alpha gamma state action d d0 d' t.
Proof.
  apply assign_td_inv. intros t d0 H. apply sarsa_bootstrap_inv in H.
  destruct next as [[ns na]|]; destruct H as [-> _];
    [apply same_view_touch | apply same_view_refl].
Qed.

Lemma sarsamax_assign_inv (g : Globals) (alpha gamma : Q) (state : State)
    (action : Action) (next_state : option State) (d d' : defaultdict) :
  assign_Q state action
    (Sarsamax.update_sarsa_Q g alpha gamma state action next_state) d
  = Ok (tt, d') ->
  exists t d0, Sarsamax.bootstrap next_state d = Ok (t, d0)
               /\ td_step g alpha gamma state action d d0 d' t.
Proof.
  apply assign_td_inv. intros t d0 H.
  apply sarsamax_bootstrap_inv in H as [-> _]. apply same_view_touch.
Qed.

Lemma expected_assign_inv (g : Globals) (eps : Q) (nA : Z) (alpha gamma : Q)
    (state : State) (action : Action) (next_state : option State)
    (d d' : defaultdict) :
  assign_Q state action
    (ExpectedSarsa.update_sarsa_Q g eps nA alpha gamma state action next_state) d
  = Ok (tt, d') ->
  exists t d0, ExpectedSarsa.bootstrap eps nA next_state d = Ok (t, d0)
               /\ td_step g alpha gamma state action d d0 d' t.
Proof.
  apply assign_td_inv. intros t d0 H. apply expected_bootstrap_inv in H.
  destruct next_state as [ns|]; destruct H as [-> _];
    [apply same_view_touch | apply same_view_refl].
Qed.

(** ** Table invariants carried through episodes and training *)

Section Invariant.

Context {E : Type}.

Variable P : defaultdict -> Prop.

Hypothesis P_touch : forall s d, P d -> P (touch (Some s) d).

Lemma eps_greedy_preserves (eps : Q) (state : State) (nA : Z)
    (w w' : World E) (a : Action) :
  eps_greedy eps state nA w = Ok (a, w') -> P (table w) -> P (table w').
Proof.
  intros H HP. apply eps_greedy_inv in H as (-> & _).
  destruct (Qltb _ eps); [done | by apply P_touch].
Qed.

Lemma sarsa_episode_preserves (g : Globals) (eps alpha gamma : Q)
    (fuel : nat) (env : Env E) (w w' : World E) (x : Q) :
  (forall state action next d d',
      assign_Q state action
        (Sarsa.update_sarsa_Q g alpha gamma state action next) d = Ok (tt, d') ->
      P d -> P d') ->
  Sarsa.generate_sarsa_episode fuel env g eps alpha gamma w = Ok (x, w') ->
  P (table w) -> P (table w').
Proof.
  intros Hstep H HP. unfold Sarsa.generate_sarsa_episode in H.
  apply bind_inv_Ok in H as (state & w1 & Hreset & H).
  apply reset_inv in Hreset. rewrite <- Hreset in HP.
  apply bind_inv_Ok in H as (action & w2 & Hsel & H).
  apply (eps_greedy_preserves _ _ _ _ _ _ Hsel) in HP.
  clear Hreset Hsel w w1. revert state action w2 HP H. generalize 0.
  induction fuel as [|fuel IH]; intros score state action w HP H; [done |].
  simpl in H.
  apply bind_inv_Ok in H as ([[ns r] done] & w1 & Hst & H).
  apply step_inv in Hst. rewrite <- Hst in HP.
  apply bind_inv_Ok in H as (na & w2 & Hsel & H).
  apply (eps_greedy_preserves _ _ _ _ _ _ Hsel) in HP.
  destruct done; simpl in H;
    apply bind_inv_Ok in H as ([] & w3 & Hasg & H);
    apply on_table_inv in Hasg as (d' & Hasg & ->);
    apply Hstep in Hasg; try done.
  - by injection H as _ <-.
  - by apply IH in H.
Qed.

Lemma sarsamax_episode_preserves (g : Globals) (eps alpha gamma : Q)
    (fuel : nat) (env : Env E) (w w' : World E) (x : Q) :
  (forall state action next_state d d',
      assign_Q state action
        (Sarsamax.update_sarsa_Q g alpha gamma state action next_state) d
      = Ok (tt, d') ->
      P d -> P d') ->
  Sarsamax.generate_sarsa_episode fuel env g eps alpha gamma w = Ok (x, w') ->
  P (table w) -> P (table w').
Proof.
  intros Hstep H HP. unfold Sarsamax.generate_sarsa_episode in H.
  apply bind_inv_Ok in H as (state & w1 & Hreset & H).
  apply reset_inv in Hreset. rewrite <- Hreset in HP.
  clear Hreset w. revert state w1 HP H. generalize 0.
  induction fuel as [|fuel IH]; intros score state w HP H; [done |].
  simpl in H.
  apply bind_inv_Ok in H as (a & w1 & Hsel & H).
  apply (eps_greedy_preserves _ _ _ _ _ _ Hsel) in HP.
  apply bind_inv_Ok in H as ([[ns r] done] & w2 & Hst & H).
  apply step_inv in Hst. rewrite <- Hst in HP.
  destruct done; simpl in H;
    apply bind_inv_Ok in H as ([] & w3 & Hasg & H);
    apply on_table_inv in Hasg as (d' & Hasg & ->);
    apply Hstep in Hasg; try done.
  - by injection H as _ <-.
  - by apply IH in H.
Qed.

Lemma expected_episode_preserves (g : Globals) (eps alpha gamma : Q)
    (fuel : nat) (env : Env E) (w w' : World E) (x : Q) :
  (forall nA state action next_state d d',
      assign_Q state action
        (ExpectedSarsa.update_sarsa_Q g eps nA alpha gamma state action
           next_state) d = Ok (tt, d') ->
      P d -> P d') ->
  ExpectedSarsa.generate_sarsa_episode fuel env g eps alpha gamma w
  = Ok (x, w') ->
  P (table w) -> P (table w').
Proof.
  intros Hstep H HP. unfold ExpectedSarsa.generate_sarsa_episode in H.
  apply bind_inv_Ok in H as (state & w1 & Hreset & H).
  apply reset_inv in Hreset. rewrite <- Hreset in HP.
  clear Hreset w. revert state w1 HP H. generalize 0.
  induction fuel as [|fuel IH]; intros score state w HP H; [done |].
  simpl in H.
  apply bind_inv_Ok in H as (a & w1 & Hsel & H).
  apply (eps_greedy_preserves _ _ _ _ _ _ Hsel) in HP.
  apply bind_inv_Ok in H as ([[ns r] done] & w2 & Hst & H).
  apply step_inv in Hst. rewrite <- Hst in HP.
  destruct done; simpl in H;
    apply bind_inv_Ok in H as ([] & w3 & Hasg & H);
    apply on_table_inv in Hasg as (d' & Hasg & ->);
    apply Hstep in Hasg; try done.
  - by injection H as _ <-.
  - by apply IH in H.
Qed.

End Invariant.

(** [train]: a property [P1] that every episode establishes from a property
    [P0] it may assume holds of the returned table once an episode has run;
    with no episode the fresh table is returned. *)
Lemma train_with_establishes {E} (P0 P1 : defaultdict -> Prop) (R : Q -> Prop)
    (episode : Q -> M (World E) Q) (eps_min eps_decay : Q)
    (num_episodes plot_every nA : Z) (eps : Q) (w w' : World E)
    (d : defaultdict) (al av : list Q) :
  (forall e, R e -> R (decay_eps eps_decay eps_min e)) -> R eps ->
  (forall d0, P1 d0 -> P0 d0) ->
  (forall e w0 x w1, R e -> episode e w0 = Ok (x, w1) ->
                     P0 (table w0) -> P1 (table w1)) ->
  P0 (new_table nA) ->
  train_with episode eps_min eps_decay num_episodes plot_every nA eps w
  = Ok ((d, al, av), w') ->
  if (num_episodes <=? 0)%Z then d = new_table nA else P1 d.
Proof.
  intros HR HReps H10 Hep Hnew H. unfold train_with in H.
  apply bind_inv_Ok in H as ([] & w0 & Hfresh & H).
  injection Hfresh as <-.
  apply bind_inv_Ok in H as (tmp & w1 & Htmp & H).
  apply bind_inv_Ok in H as (avg & w2 & Havg & H).
  unfold deque_new in Htmp, Havg.
  destruct (plot_every <? 0)%Z; [discriminate |].
  destruct (num_episodes <? 0)%Z; [discriminate |].
  injection Htmp as <- <-. injection Havg as <- <-.
  apply bind_inv_Ok in H as ([al' av'] & w3 & Hloop & H).
  simpl in H. injection H as <- _ _ <-.
  assert (Hgen : forall n i e all tmp avg (wa wb : World E) res,
            R e -> P0 (table wa) ->
            train_loop episode eps_min eps_decay num_episodes plot_every n i e
              all tmp avg wa = Ok (res, wb) ->
            match n with
            | O => wb = wa
            | S _ => P1 (table wb)
            end).
  { induction n as [|n IH]; intros i e all tmp avg wa wb res HRe HP Hrun.
    - simpl in Hrun. by injection Hrun as _ <-.
    - simpl in Hrun.
      apply bind_inv_Ok in Hrun as (score & wc & Hepi & Hrun).
      destruct (plot_every =? 0)%Z; [discriminate |].
      apply (Hep _ _ _ _ (HR e HRe)) in Hepi; [| done].
      apply IH in Hrun; [| by apply HR | by apply H10].
      destruct n; [by subst | done]. }
  apply Hgen in Hloop; [| done | done].
  destruct (Z.leb_spec num_episodes 0).
  - replace (Z.to_nat num_episodes) with 0%nat in Hloop by lia. by subst.
  - destruct (Z.to_nat num_episodes) eqn:Hn; [lia | done].
Qed.

(** ** Which tables hold a row under [None] *)

Lemma store_Some_none (s : State) (a : Action) (x : Q) (d : defaultdict) :
  items (store (Some s) a x d) !! None = items d !! None.
Proof. unfold store. simpl. by rewrite lookup_insert_ne. Qed.

Lemma td_step_none (g : Globals) (alpha gamma : Q) (state : State)
    (action : Action) (d d0 d' : defaultdict) (t : Q) :
  td_step g alpha gamma state action d d0 d' t ->
  items d' !! None = items d0 !! None /\ zeros_n d' = zeros_n d.
Proof.
  intros (q & _ & [Hn _] & ->).
  rewrite store_Some_none, touch_Some_none. simpl.
  by rewrite zeros_n_touch.
Qed.

Lemma sarsa_assign_no_None (g : Globals) (alpha gamma : Q) (state : State)
    (action : Action) (next : option (State * Action)) (d d' : defaultdict) :
  assign_Q state action (Sarsa.update_sarsa_Q g alpha gamma state action next) d
  = Ok (tt, d') ->
  items d !! None = None -> items d' !! None = None.
Proof.
  intros H Hnone. apply sarsa_assign_inv in H as (t & d0 & Hboot & Hstep).
  apply td_step_none in Hstep as [-> _].
  apply sarsa_bootstrap_inv in Hboot.
  destruct next as [[ns na]|]; destruct Hboot as [-> _]; [| done].
  by rewrite touch_Some_none.
Qed.

Lemma expected_assign_no_None (g : Globals) (eps : Q) (nA : Z)
    (alpha gamma : Q) (state : State) (action : Action)
    (next_state : option State) (d d' : defaultdict) :
  assign_Q state action
    (ExpectedSarsa.update_sarsa_Q g eps nA alpha gamma state action next_state) d
  = Ok (tt, d') ->
  items d !! None = None -> items d' !! None = None.
Proof.
  intros H Hnone. apply expected_assign_inv in H as (t & d0 & Hboot & Hstep).
  apply td_step_none in Hstep as [-> _].
  apply expected_bootstrap_inv in Hboot.
  destruct next_state as [ns|]; destruct Hboot as [-> _]; [| done].
  by rewrite touch_Some_none.
Qed.

Lemma sarsamax_assign_zeros_n (g : Globals) (alpha gamma : Q) (state : State)
    (action : Action) (next_state : option State) (d d' : defaultdict) (nA : Z) :
  assign_Q state action
    (Sarsamax.update_sarsa_Q g alpha gamma state action next_state) d
  = Ok (tt, d') ->
  zeros_n d = nA -> zeros_n d' = nA.
Proof.
  intros H Hn. apply sarsamax_assign_inv in H as (t & d0 & _ & Hstep).
  apply td_step_none in Hstep as [_ ->]. done.
Qed.

Lemma sarsamax_episode_None_row {E} (fuel : nat) (env : Env E) (g : Globals)
    (eps alpha gamma : Q) (w w' : World E) (x : Q) (nA : Z) :
  Sarsamax.generate_sarsa_episode fuel env g eps alpha gamma w = Ok (x, w') ->
  zeros_n (table w) = nA /\
  none_row_after (table w) = replicate (Z.to_nat nA) 0 ->
  zeros_n (table w') = nA /\
  items (table w') !! None = Some (replicate (Z.to_nat nA) 0).
Proof.
  intros H [Hn Hrow]. split.
  - apply (sarsamax_episode_preserves (fun d => zeros_n d = nA))
      with (g := g) (eps := eps) (alpha := alpha) (gamma := gamma)
           (fuel := fuel) (env := env) (w := w) (x := x); try done.
    + intros s d <-. apply zeros_n_touch.
    + intros state action ns d d' Ha Hd.
      by apply (sarsamax_assign_zeros_n g alpha gamma state action ns d d').
  - unfold Sarsamax.generate_sarsa_episode in H.
    apply bind_inv_Ok in H as (state & w1 & Hreset & H).
    apply reset_inv in Hreset. apply sarsamax_loop_none in H.
    by rewrite H, Hreset, Hrow.
Qed.

(** X6. The tables SARSA and Expected SARSA return hold no row under the key
    [None].  The table SARSAMAX returns holds one as soon as one episode has
    run, and that row is all zeros. *)
Theorem None_row_only_from_sarsamax {E} (fuel : nat) (env : Env E)
    (g : Globals) (num_episodes : Z) (eps eps_min eps_decay alpha gamma : Q)
    (plot_every : Z) (w w' : World E) (d : defaultdict) (al av : list Q) :
  (Sarsa.train fuel env g num_episodes eps eps_min eps_decay alpha gamma
     plot_every w = Ok ((d, al, av), w') ->
   items d !! None = None) /\
  (ExpectedSarsa.train fuel env g num_episodes eps eps_min eps_decay alpha
     gamma plot_every w = Ok ((d, al, av), w') ->
   items d !! None = None) /\
  (Sarsamax.train fuel env g num_episodes eps eps_min eps_decay alpha gamma
     plot_every w = Ok ((d, al, av), w') ->
   if (num_episodes <=? 0)%Z then items d !! None = None
   else items d !! None
        = Some (replicate (Z.to_nat (action_space_n env)) 0)).
Proof.
  split; [| split]; intros H.
  - apply (train_with_establishes (fun d => items d !! None = None)
             (fun d => items d !! None = None) (fun _ => True)) in H;
      try done.
    + destruct (num_episodes <=? 0)%Z; [by subst | done].
    + intros e w0 x w1 _ Hep.
      apply (sarsa_episode_preserves _ (fun s d => eq_trans (touch_Some_none s d))
               g e alpha gamma fuel env w0 w1 x); [| exact Hep].
      intros state action next d0 d'. apply sarsa_assign_no_None.
  - apply (train_with_establishes (fun d => items d !! None = None)
             (fun d => items d !! None = None) (fun _ => True)) in H;
      try done.
    + destruct (num_episodes <=? 0)%Z; [by subst | done].
    + intros e w0 x w1 _ Hep.
      apply (expected_episode_preserves _
               (fun s d => eq_trans (touch_Some_none s d))
               g e alpha gamma fuel env w0 w1 x); [| exact Hep].
      intros nA state action next d0 d'. apply expected_assign_no_None.
  - apply (train_with_establishes
             (fun d => zeros_n d = action_space_n env /\
                       none_row_after d
                       = replicate (Z.to_nat (action_space_n env)) 0)
             (fun d => zeros_n d = action_space_n env /\
                       items d !! None
                       = Some (replicate (Z.to_nat (action_space_n env)) 0))
             (fun _ => True)) in H; try done.
    + destruct (num_episodes <=? 0)%Z; [by subst | by destruct H].
    + intros d0 [Hn Hrow]. split; [done |].
      unfold none_row_after. by rewrite Hrow.
    + intros e w0 x w1 _ Hep.
      apply (sarsamax_episode_None_row fuel env g e alpha gamma w0 w1 x _ Hep).
Qed.

Lemma None_row_only_from_sarsamax_witness :
  match Sarsamax.train 5 (corridor (-1)) {| reward := -1 |} 3 1 (1#100)
          (9#10) (1#10) 1 1 (corridor_world (new_table 0)) with
  | Ok ((d, _, _), _) => items d !! None = Some [0; 0]
  | _ => False
  end.
Proof.
  destruct (Sarsamax.train 5 (corridor (-1)) {| reward := -1 |} 3 1 (1#100)
              (9#10) (1#10) 1 1 (corridor_world (new_table 0)))
    as [[[[d al] av] w']| e |] eqn:H.
  - exact (proj2 (proj2 (None_row_only_from_sarsamax 5 (corridor (-1))
                           {| reward := -1 |} 3 1 (1#100) (9#10) (1#10) 1 1
                           (corridor_world (new_table 0)) w' d al av)) H).
  - vm_compute in H. discriminate.
  - vm_compute in H. discriminate.
Defined.

(** ** Non-positive rewards keep every value non-positive *)

Lemma nonpos_new_table (n : Z) : nonpos (new_table n).
Proof.
  intros k a x. unfold peek, row. simpl. rewrite lookup_empty.
  intros [-> _]%lookup_replicate. lra.
Qed.

Lemma nonpos_same_view (d d1 : defaultdict) :
  same_view d d1 -> nonpos d -> nonpos d1.
Proof.
  intros Hv Hd k a x Hx. rewrite (peek_same_view _ _ _ _ Hv) in Hx. eauto.
Qed.

Lemma nonpos_store (k : option Z) (a : Action) (x : Q) (d : defaultdict) :
  nonpos d -> x <= 0 -> nonpos (store k a x d).
Proof.
  intros Hd Hx k' a' y. unfold peek. rewrite row_store. case_decide as Hk.
  - subst. intros [(_ & <- & _) | (_ & Hy)]%list_lookup_insert_Some; [done |].
    by apply (Hd k a').
  - apply Hd.
Qed.

Lemma td_step_nonpos (g : Globals) (alpha gamma : Q) (state : State)
    (action : Action) (d d0 d' : defaultdict) (t : Q) :
  reward g <= 0 -> 0 <= alpha -> alpha <= 1 -> 0 <= gamma -> t <= 0 ->
  td_step g alpha gamma state action d d0 d' t ->
  nonpos d -> nonpos d'.
Proof.
  intros Hr Ha0 Ha1 Hg Ht (q & Hq & Hv & ->) Hd.
  apply nonpos_store.
  - apply (nonpos_same_view d0); [apply same_view_touch |].
    by apply (nonpos_same_view d).
  - specialize (Hd _ _ _ Hq).
    assert (H1 : (1 - alpha) * q <= 0) by nra.
    assert (H2 : alpha * reward g <= 0) by nra.
    assert (H3 : gamma * t <= 0) by nra.
    assert (H4 : alpha * (gamma * t) <= 0) by nra.
    lra.
Qed.

Lemma dot_nonpos (v p : list Q) :
  (forall x, x ∈ v -> x <= 0) -> (forall y, y ∈ p -> 0 <= y) ->
  sumQ (zip_with Qmult v p) <= 0.
Proof.
  revert p. induction v as [|x v IH]; intros [|y p] Hv Hp; simpl; try lra.
  assert (x <= 0) by (apply Hv; left).
  assert (0 <= y) by (apply Hp; left).
  assert (sumQ (zip_with Qmult v p) <= 0).
  { apply IH; intros z Hz; [apply Hv | apply Hp]; by right. }
  fold (sumQ (zip_with Qmult v p)). nra.
Qed.

Lemma policy_entries_nonneg (eps : Q) (nA : Z) (best : nat) (y : Q) :
  0 <= eps -> eps <= 1 -> (0 < nA)%Z ->
  y ∈ <[best := 1 - eps + eps / inject_Z nA]>
        (replicate (Z.to_nat nA) (1 * eps / inject_Z nA)) ->
  0 <= y.
Proof.
  intros He0 He1 HnA Hy.
  assert (Hn : 0 < inject_Z nA) by (by apply inject_Z_pos).
  assert (Hc : eps / inject_Z nA * inject_Z nA == eps) by (field; lra).
  assert (Hc0 : 0 <= eps / inject_Z nA).
  { set (c := eps / inject_Z nA) in *. nra. }
  assert (Hc1 : 1 * eps / inject_Z nA == eps / inject_Z nA) by (field; lra).
  apply list_elem_of_lookup in Hy as [i Hi].
  apply list_lookup_insert_Some in Hi as [(_ & <- & _) | (_ & Hi)]; [lra |].
  apply lookup_replicate in Hi as [-> _]. lra.
Qed.

Section Steps.

Variable g : Globals.

Variables alpha gamma : Q.

Hypothesis reward_nonpos : reward g <= 0.

Hypothesis alpha_ge_0 : 0 <= alpha.

Hypothesis alpha_le_1 : alpha <= 1.

Hypothesis gamma_ge_0 : 0 <= gamma.

Lemma sarsa_assign_nonpos (state : State) (action : Action)
    (next : option (State * Action)) (d d' : defaultdict) :
  assign_Q state action (Sarsa.update_sarsa_Q g alpha gamma state action next) d
  = Ok (tt, d') ->
  nonpos d -> nonpos d'.
Proof.
  intros H Hd. apply sarsa_assign_inv in H as (t & d0 & Hboot & Hstep).
  apply (td_step_nonpos g alpha gamma state action d d0 d' t); try done.
  apply sarsa_bootstrap_inv in Hboot.
  destruct next as [[ns na]|]; destruct Hboot as [_ Ht].
  - by apply (Hd _ _ _ Ht).
  - subst. lra.
Qed.

Lemma sarsamax_assign_nonpos (state : State) (action : Action)
    (next_state : option State) (d d' : defaultdict) :
  assign_Q state action
    (Sarsamax.update_sarsa_Q g alpha gamma state action next_state) d
  = Ok (tt, d') ->
  nonpos d -> nonpos d'.
Proof.
  intros H Hd. apply sarsamax_assign_inv in H as (t & d0 & Hboot & Hstep).
  apply (td_step_nonpos g alpha gamma state action d d0 d' t); try done.
  apply sarsamax_bootstrap_inv in Hboot as [_ Ht].
  destruct next_state as [ns|].
  - destruct Ht as [na Ht]. by apply (Hd _ _ _ Ht).
  - subst. lra.
Qed.

Lemma expected_assign_nonpos (eps : Q) (nA : Z) (state : State)
    (action : Action) (next_state : option State) (d d' : defaultdict) :
  0 <= eps -> eps <= 1 ->
  assign_Q state action
    (ExpectedSarsa.update_sarsa_Q g eps nA alpha gamma state action next_state) d
  = Ok (tt, d') ->
  nonpos d -> nonpos d'.
Proof.
  intros He0 He1 H Hd.
  apply expected_assign_inv in H as (t & d0 & Hboot & Hstep).
  apply (td_step_nonpos g alpha gamma state action d d0 d' t); try done.
  apply expected_bootstrap_inv in Hboot.
  destruct next_state as [ns|].
  - destruct Hboot as (_ & HnA & best & ->). apply dot_nonpos.
    + intros x [a Ha]%list_elem_of_lookup. by apply (Hd (Some ns) a).
    + intros y. by apply policy_entries_nonneg.
  - destruct Hboot as [_ ->]. lra.
Qed.

End Steps.

Lemma nonpos_touch (s : State) (d : defaultdict) :
  nonpos d -> nonpos (touch (Some s) d).
Proof. apply nonpos_same_view, same_view_touch. Qed.

Lemma decay_eps_unit (eps_decay eps_min e : Q) :
  0 <= eps_decay -> eps_decay <= 1 -> 0 <= eps_min -> eps_min <= 1 ->
  0 <= e /\ e <= 1 ->
  0 <= decay_eps eps_decay eps_min e /\ decay_eps eps_decay eps_min e <= 1.
Proof.
  intros Hd0 Hd1 Hm0 Hm1 [He0 He1]. unfold decay_eps. split.
  - pose proof (py_max_ge_r (e * eps_decay) eps_min). lra.
  - apply py_max_lub; [nra | done].
Qed.

Lemma returns_nonpos_intro {E}
    (r : result (defaultdict * list Q * list Q * World E)) :
  (forall d al av w', r = Ok ((d, al, av), w') -> nonpos d) ->
  returns_nonpos r.
Proof. destruct r as [[[[d al] av] w']| |]; simpl; eauto. Qed.

(** X7. When the module-level [reward] is not positive, [0 <= alpha <= 1] and
    [0 <= gamma], no entry of the table [train] returns is positive; for
    Expected SARSA this also needs [eps], [eps_min] and [eps_decay] in
    [0, 1], so that the policy weights are not negative. *)
Theorem values_stay_nonpositive {E} (fuel : nat) (env : Env E) (g : Globals)
    (num_episodes : Z) (eps eps_min eps_decay alpha gamma : Q)
    (plot_every : Z) (w : World E) :
  reward g <= 0 -> 0 <= alpha -> alpha <= 1 -> 0 <= gamma ->
  returns_nonpos
    (Sarsa.train fuel env g num_episodes eps eps_min eps_decay alpha gamma
       plot_every w) /\
  returns_nonpos
    (Sarsamax.train fuel env g num_episodes eps eps_min eps_decay alpha gamma
       plot_every w) /\
  (0 <= eps -> eps <= 1 -> 0 <= eps_min -> eps_min <= 1 ->
   0 <= eps_decay -> eps_decay <= 1 ->
   returns_nonpos
     (ExpectedSarsa.train fuel env g num_episodes eps eps_min eps_decay alpha
        gamma plot_every w)).
Proof.
  intros Hr Ha0 Ha1 Hg. split; [| split].
  - apply returns_nonpos_intro. intros d al av w' H.
    apply (train_with_establishes nonpos nonpos (fun _ => True)) in H;
      try done; [| | apply nonpos_new_table].
    + destruct (num_episodes <=? 0)%Z; [| done].
      subst. apply nonpos_new_table.
    + intros e w0 x w1 _ Hep.
      apply (sarsa_episode_preserves nonpos nonpos_touch g e alpha gamma fuel
               env w0 w1 x); [| exact Hep].
      intros state action next d0 d'. by apply sarsa_assign_nonpos.
  - apply returns_nonpos_intro. intros d al av w' H.
    apply (train_with_establishes nonpos nonpos (fun _ => True)) in H;
      try done; [| | apply nonpos_new_table].
    + destruct (num_episodes <=? 0)%Z; [| done].
      subst. apply nonpos_new_table.
    + intros e w0 x w1 _ Hep.
      apply (sarsamax_episode_preserves nonpos nonpos_touch g e alpha gamma
               fuel env w0 w1 x); [| exact Hep].
      intros state action next d0 d'. by apply sarsamax_assign_nonpos.
  - intros He0 He1 Hm0 Hm1 Hd0 Hd1.
    apply returns_nonpos_intro. intros d al av w' H.
    apply (train_with_establishes nonpos nonpos
             (fun e => 0 <= e /\ e <= 1)) in H;
      try done; [| | | apply nonpos_new_table].
    + destruct (num_episodes <=? 0)%Z; [| done].
      subst. apply nonpos_new_table.
    + intros e. by apply decay_eps_unit.
    + intros e w0 x w1 [Hlo Hhi] Hep.
      apply (expected_episode_preserves nonpos nonpos_touch g e alpha gamma
               fuel env w0 w1 x); [| exact Hep].
      intros nA state action next d0 d'. by apply expected_assign_nonpos.
Qed.

Lemma values_stay_nonpositive_witness :
  reward {| reward := -1 |} <= 0 /\ 0 <= 1#10 /\ 1#10 <= 1 /\ 0 <= 1 /\
  returns (ExpectedSarsa.train 5 (corridor (-1)) {| reward := -1 |} 3 1
             (1#100) (9#10) (1#10) 1 1 (corridor_world (new_table 0))) /\
  returns_nonpos
    (Sarsa.train 5 (corridor (-1)) {| reward := -1 |} 3 1 (1#100) (9#10)
       (1#10) 1 1 (corridor_world (new_table 0))) /\
  returns_nonpos
    (Sarsamax.train 5 (corridor (-1)) {| reward := -1 |} 3 1 (1#100) (9#10)
       (1#10) 1 1 (corridor_world (new_table 0))) /\
  returns_nonpos
    (ExpectedSarsa.train 5 (corridor (-1)) {| reward := -1 |} 3 1 (1#100)
       (9#10) (1#10) 1 1 (corridor_world (new_table 0))).
Proof.
  assert (Hr : reward {| reward := -1 |} <= 0) by (simpl; lra).
  assert (Ha0 : 0 <= 1#10) by lra.
  assert (Ha1 : 1#10 <= 1) by lra.
  assert (Hg : 0 <= 1) by lra.
  split; [exact Hr |]. split; [exact Ha0 |]. split; [exact Ha1 |].
  split; [exact Hg |]. split; [by vm_compute |].
  destruct (values_stay_nonpositive 5 (corridor (-1)) {| reward := -1 |} 3 1
              (1#100) (9#10) (1#10) 1 1 (corridor_world (new_table 0))
              Hr Ha0 Ha1 Hg) as (H1 & H2 & H3).
  split; [exact H1 |]. split; [exact H2 |]. apply H3; lra.
Defined.

(** ** The policy comprehension *)

Lemma contains_true (d : defaultdict) (key : State) :
  contains d key = true <-> is_Some (items d !! Some key).
Proof. unfold contains. apply bool_decide_eq_true. Qed.

Lemma contains_false (d : defaultdict) (key : State) :
  contains d key = false <-> items d !! Some key = None.
Proof.
  unfold contains. rewrite bool_decide_eq_false. symmetry.
  apply eq_None_not_Some.
Qed.

Lemma first_greedy_same_view (d d1 : defaultdict) (key : State) (a : Action) :
  same_view d d1 -> first_greedy d1 key a -> first_greedy d key a.
Proof.
  intros Hv (m & Hm & Hmax & Hfirst). exists m.
  rewrite (peek_same_view _ _ _ _ Hv) in Hm. split; [done |]. split.
  - intros a' x Hx. apply (Hmax a').
    by rewrite (peek_same_view _ _ _ _ Hv).
  - intros a' x Ha Hx. apply (Hfirst a'); [done |].
    by rewrite (peek_same_view _ _ _ _ Hv).
Qed.

(** The lookup [np.argmax(Q[key])] of one entry. *)
Lemma policy_lookup_ok (d : defaultdict) (key : State) :
  wf d ->
  exists a, policy_entry true key d = Ok (Z.of_nat a, touch (Some key) d) /\
            (a < Z.to_nat (zeros_n d))%nat /\ first_greedy d key a /\
            (items d !! Some key = None -> a = 0%nat).
Proof.
  intros Hwf. pose proof Hwf as [Hn _].
  destruct (np_argmax_first (row d (Some key)))
    as (j & m & Hj & Hm & Hall & Hfirst).
  { rewrite length_row by done. lia. }
  assert (Hn0 : (0 <= zeros_n d)%Z) by lia.
  exists j. unfold policy_entry.
  rewrite (bind_Ok _ _ _ _ _ (getitem_touch (Some key) d Hn0)).
  rewrite Hj. simpl. split; [done |]. split.
  { apply lookup_lt_Some in Hm. by rewrite length_row in Hm. }
  split.
  - exists m. split; [exact Hm |]. split.
    + intros a' x Hx. apply Hall. apply list_elem_of_lookup. by exists a'.
    + intros a' x Ha' Hx. by apply (Hfirst a' x).
  - intros Hnone. destruct j as [|j]; [done |]. exfalso.
    assert (H0 : row d (Some key) !! 0%nat = Some 0).
    { unfold row. rewrite Hnone. apply lookup_replicate_2. lia. }
    pose proof (Hfirst 0%nat 0 ltac:(lia) H0) as Hlt0.
    unfold row in Hm. rewrite Hnone in Hm.
    apply lookup_replicate in Hm as [-> _]. lra.
Qed.

Lemma touch_present (k : option Z) (d : defaultdict) :
  is_Some (items d !! k) -> touch k d = d.
Proof. intros [v Hv]. unfold touch. by rewrite Hv. Qed.

(** X8. The policy comprehension of Parts 1 and 2 leaves a well-formed table
    unchanged and yields one entry per key: [-1] exactly for the keys that
    have no row, and otherwise the first maximiser of the row. *)
Theorem policy_of_table_marks_unseen (d : defaultdict) (keys : list State) :
  wf d ->
  exists pol,
    policy_of_table keys d = Ok (pol, d) /\
    length pol = length keys /\
    (forall i key, keys !! i = Some key ->
       exists entry, pol !! i = Some entry /\ policy_entry_spec d d key entry) /\
    (forall i key, keys !! i = Some key ->
       (pol !! i = Some (-1)%Z <-> items d !! Some key = None)).
Proof.
  intros Hwf. induction keys as [|key keys IH].
  - exists []. repeat split; try done; intros i key Hi; by destruct i.
  - destruct IH as (pol & Hrun & Hlen & Hspec & Hiff).
    assert (Hentry : exists entry,
               policy_entry (contains d key) key d = Ok (entry, d) /\
               policy_entry_spec d d key entry /\
               (entry = (-1)%Z <-> items d !! Some key = None)).
    { unfold policy_entry_spec. destruct (contains d key) eqn:Hc.
      - apply contains_true in Hc.
        destruct (policy_lookup_ok d key Hwf) as (a & Ha & Hlt & Hg & _).
        rewrite (touch_present _ _ Hc) in Ha.
        exists (Z.of_nat a). split; [done |]. split; [eauto |].
        split; [lia |]. intros Hnone. rewrite Hnone in Hc.
        by destruct Hc.
      - exists (-1)%Z. split; [done |]. split; [done |].
        apply contains_false in Hc. done. }
    destruct Hentry as (entry & He & Hes & Heiff).
    exists (entry :: pol). simpl.
    rewrite (bind_Ok _ _ d d entry) by exact He.
    rewrite (bind_Ok _ _ _ _ _ Hrun). split; [done |].
    split; [simpl; by rewrite Hlen |]. split.
    + intros [|i] k Hi; simpl in *.
      * injection Hi as <-. eauto.
      * by apply Hspec.
    + intros [|i] k Hi; simpl in *.
      * injection Hi as <-. rewrite <- Heiff. split; [by intros [= ->] | by intros ->].
      * by apply Hiff.
Qed.

Lemma policy_of_table_marks_unseen_witness :
  wf table_0_5 /\
  policy_of_table (np_arange 3) table_0_5
  = Ok ([(-1)%Z; 1%Z; (-1)%Z], table_0_5) /\
  exists pol,
    policy_of_table (np_arange 3) table_0_5 = Ok (pol, table_0_5) /\
    length pol = length (np_arange 3) /\
    (forall i key, np_arange 3 !! i = Some key ->
       exists entry, pol !! i = Some entry /\
                     policy_entry_spec table_0_5 table_0_5 key entry) /\
    (forall i key, np_arange 3 !! i = Some key ->
       (pol !! i = Some (-1)%Z <-> items table_0_5 !! Some key = None)).
Proof.
  split; [exact wf_table_0_5 |]. split; [by vm_compute |].
  exact (policy_of_table_marks_unseen table_0_5 (np_arange 3) wf_table_0_5).
Defined.

(** X9. The policy comprehension of Part 3 tests membership in [Q_sarsa] but
    reads [Q_sarsa_orig]: a key absent from [Q_sarsa] gets [-1] whatever
    [Q_sarsa_orig] holds, and a key of [Q_sarsa] that [Q_sarsa_orig] lacks
    gets action [0] and a fresh row of zeros inserted into [Q_sarsa_orig];
    the rows [Q_sarsa_orig] held are kept. *)
Theorem policy_of_tables_mixes_tables (Q_sarsa Q_sarsa_orig : defaultdict)
    (keys : list State) :
  wf Q_sarsa_orig ->
  exists pol d',
    policy_of_tables Q_sarsa keys Q_sarsa_orig = Ok (pol, d') /\
    wf d' /\ same_view Q_sarsa_orig d' /\
    length pol = length keys /\
    (forall k v, items Q_sarsa_orig !! k = Some v -> items d' !! k = Some v) /\
    (forall i key, keys !! i = Some key ->
       exists entry, pol !! i = Some entry /\
         policy_entry_spec Q_sarsa Q_sarsa_orig key entry /\
         (items Q_sarsa !! Some key = None -> entry = (-1)%Z) /\
         (is_Some (items Q_sarsa !! Some key) ->
          items Q_sarsa_orig !! Some key = None ->
          entry = 0%Z /\
          items d' !! Some key
          = Some (replicate (Z.to_nat (zeros_n Q_sarsa_orig)) 0))).
Proof.
  intros Hwf. revert Q_sarsa_orig Hwf.
  induction keys as [|key keys IH]; intros d Hwf.
  - exists [], d. repeat split; try done; try apply Hwf.
    all: intros i key Hi; by destruct i.
  - assert (Hentry : exists entry d1,
               policy_entry (contains Q_sarsa key) key d = Ok (entry, d1) /\
               wf d1 /\ same_view d d1 /\
               (forall k v, items d !! k = Some v -> items d1 !! k = Some v) /\
               policy_entry_spec Q_sarsa d key entry /\
               (items Q_sarsa !! Some key = None -> entry = (-1)%Z) /\
               (is_Some (items Q_sarsa !! Some key) ->
                items d !! Some key = None ->
                entry = 0%Z /\
                items d1 !! Some key = Some (replicate (Z.to_nat (zeros_n d)) 0))).
    { unfold policy_entry_spec. destruct (contains Q_sarsa key) eqn:Hc.
      - apply contains_true in Hc.
        destruct (policy_lookup_ok d key Hwf) as (a & Ha & Hlt & Hg & H0).
        exists (Z.of_nat a), (touch (Some key) d).
        split; [done |]. split; [by apply wf_touch |].
        split; [apply same_view_touch |]. split.
        { intros k v Hk. unfold touch.
          destruct (items d !! Some key) eqn:Hs; [done |]. simpl.
          rewrite lookup_insert_ne; [done | congruence]. }
        split; [eauto |]. split.
        { intros Hnone. rewrite Hnone in Hc. by destruct Hc. }
        intros _ Hnone. rewrite (H0 Hnone). split; [done |].
        rewrite items_touch. unfold row. by rewrite Hnone.
      - apply contains_false in Hc.
        exists (-1)%Z, d. split; [done |]. split; [done |].
        split; [apply same_view_refl |]. split; [done |]. split; [done |].
        split; [done |]. intros Hs. rewrite Hc in Hs. by destruct Hs. }
    destruct Hentry as (entry & d1 & He & Hwf1 & Hv1 & Hkeep1 & Hes & Hneg & Hzero).
    destruct (IH d1 Hwf1) as (pol & d' & Hrun & Hwf' & Hv' & Hlen & Hkeep' & Hspec).
    exists (entry :: pol), d'. simpl.
    rewrite (bind_Ok _ _ _ _ _ He), (bind_Ok _ _ _ _ _ Hrun).
    split; [done |]. split; [done |].
    split; [by apply (same_view_trans d d1 d') |].
    split; [simpl; by rewrite Hlen |].
    split; [intros k v Hk; by apply Hkeep', Hkeep1 |].
    intros [|i] k Hi; simpl in *.
    + injection Hi as <-. exists entry. split; [done |]. split; [done |].
      split; [done |]. intros Hs Hnone.
      destruct (Hzero Hs Hnone) as [-> Hrow]. split; [done |].
      by apply Hkeep'.
    + destruct (Hspec i k Hi) as (en & Hen & Hsp & Hn & Hz).
      exists en. split; [done |]. split.
      { unfold policy_entry_spec in *. destruct (contains Q_sarsa k); [| done].
        destruct Hsp as (a & -> & Hlt & Hg). exists a. split; [done |].
        pose proof Hv1 as [Hn1 _]. rewrite <- Hn1. split; [done |].
        by apply (first_greedy_same_view d d1). }
      split; [done |]. intros Hs Hnone.
      destruct (items d1 !! Some k) as [v|] eqn:Hd1.
      * (* the row was created by an earlier element for the same key *)
        assert (Hv : v = replicate (Z.to_nat (zeros_n d)) 0).
        { destruct Hv1 as [_ Hrow]. specialize (Hrow (Some k)).
          unfold row in Hrow. by rewrite Hd1, Hnone in Hrow. }
        subst v. split; [| by apply Hkeep'].
        unfold policy_entry_spec in Hsp.
        apply contains_true in Hs. rewrite Hs in Hsp.
        destruct Hsp as (a & -> & _ & (m & Hm & _ & Hfirst)).
        destruct a as [|a]; [done |]. exfalso.
        assert (H0 : peek d1 (Some k) 0 = Some 0).
        { unfold peek, row. rewrite Hd1. apply lookup_replicate_2.
          destruct Hwf as [? _]. lia. }
        pose proof (Hfirst 0%nat 0 ltac:(lia) H0).
        unfold peek, row in Hm. rewrite Hd1 in Hm.
        apply lookup_replicate in Hm as [-> _]. lra.
      * destruct (Hz Hs eq_refl) as [-> Hrow]. split; [done |].
        destruct Hv1 as [<- _]. done.
Qed.

Lemma policy_of_tables_mixes_tables_witness :
  wf (new_table 2) /\
  result_map fst (policy_of_tables table_0_5 (np_arange 3) (new_table 2))
  = Ok [(-1)%Z; 0%Z; (-1)%Z] /\
  exists pol d',
    policy_of_tables table_0_5 (np_arange 3) (new_table 2) = Ok (pol, d') /\
    wf d' /\ same_view (new_table 2) d' /\
    length pol = length (np_arange 3) /\
    (forall k v, items (new_table 2) !! k = Some v -> items d' !! k = Some v) /\
    (forall i key, np_arange 3 !! i = Some key ->
       exists entry, pol !! i = Some entry /\
         policy_entry_spec table_0_5 (new_table 2) key entry /\
         (items table_0_5 !! Some key = None -> entry = (-1)%Z) /\
         (is_Some (items table_0_5 !! Some key) ->
          items (new_table 2) !! Some key = None ->
          entry = 0%Z /\
          items d' !! Some key
          = Some (replicate (Z.to_nat (zeros_n (new_table 2))) 0))).
Proof.
  assert (Hwf : wf (new_table 2)) by (apply wf_new_table; lia).
  split; [exact Hwf |]. split; [by vm_compute |].
  exact (policy_of_tables_mixes_tables table_0_5 (new_table 2) (np_arange 3) Hwf).
Defined.

(** ** The cells that bind the module-level [reward] *)







(** ** Runs return when the environment ends its episodes *)


















(** ** The score of an episode *)










(** ** The keys of the learned table *)



Section Keys.

Context {E : Type}.

Variable P : State -> Prop.









End Keys.










(** ** A zero step size learns nothing *)

Lemma returns_all_zero_intro {E}
    (r : result (defaultdict * list Q * list Q * World E)) :
  (forall d al av w', r = Ok ((d, al, av), w') -> all_zero d) ->
  returns_all_zero r.
Proof. destruct r as [[[[d al] av] w']| |]; simpl; eauto. Qed.

Lemma all_zero_new_table (n : Z) : all_zero (new_table n).
Proof.
  intros k a x. unfold peek, row. simpl. rewrite lookup_empty.
  intros [-> _]%lookup_replicate. reflexivity.
Qed.

Lemma all_zero_same_view (d d1 : defaultdict) :
  same_view d d1 -> all_zero d -> all_zero d1.
Proof.
  intros Hv Hd k a x Hx. rewrite (peek_same_view _ _ _ _ Hv) in Hx. eauto.
Qed.

Lemma all_zero_touch (s : State) (d : defaultdict) :
  all_zero d -> all_zero (touch (Some s) d).
Proof. apply all_zero_same_view, same_view_touch. Qed.

Lemma all_zero_store (k : option Z) (a : Action) (x : Q) (d : defaultdict) :
  all_zero d -> x == 0 -> all_zero (store k a x d).
Proof.
  intros Hd Hx k' a' y. unfold peek. rewrite row_store. case_decide as Hk.
  - subst. intros [(_ & <- & _) | (_ & Hy)]%list_lookup_insert_Some; [done |].
    by apply (Hd k a').
  - apply Hd.
Qed.

Lemma td_step_all_zero (g : Globals) (alpha gamma : Q) (state : State)
    (action : Action) (d d0 d' : defaultdict) (t : Q) :
  alpha == 0 ->
  td_step g alpha gamma state action d d0 d' t ->
  all_zero d -> all_zero d'.
Proof.
  intros Ha (q & Hq & Hv & ->) Hd.
  apply all_zero_store.
  - apply (all_zero_same_view d0); [apply same_view_touch |].
    by apply (all_zero_same_view d).
  - specialize (Hd _ _ _ Hq). rewrite Ha, Hd. ring.
Qed.

(** X16. With [alpha = 0] every entry of the table [train] returns reads
    zero, whatever the rewards and the other parameters are. *)
Theorem zero_alpha_learns_nothing {E} (fuel : nat) (env : Env E) (g : Globals)
    (num_episodes : Z) (eps eps_min eps_decay alpha gamma : Q)
    (plot_every : Z) (w : World E) :
  alpha == 0 ->
  returns_all_zero
    (Sarsa.train fuel env g num_episodes eps eps_min eps_decay alpha gamma
       plot_every w) /\
  returns_all_zero
    (Sarsamax.train fuel env g num_episodes eps eps_min eps_decay alpha gamma
       plot_every w) /\
  returns_all_zero
    (ExpectedSarsa.train fuel env g num_episodes eps eps_min eps_decay alpha
       gamma plot_every w).
Proof.
  intros Ha.
  assert (Hgen : forall episode : Q -> M (World E) Q,
            (forall e w0 x w1, episode e w0 = Ok (x, w1) ->
                               all_zero (table w0) -> all_zero (table w1)) ->
            returns_all_zero
              (train_with episode eps_min eps_decay num_episodes plot_every
                 (action_space_n env) eps w)).
  { intros episode Hep. apply returns_all_zero_intro.
    intros d al av w' H.
    apply (train_with_establishes all_zero all_zero (fun _ => True)) in H.
    - destruct (num_episodes <=? 0)%Z; [| exact H].
      subst d. apply all_zero_new_table.
    - intros; exact I.
    - exact I.
    - intros d0 Hd0; exact Hd0.
    - intros e w0 x w1 _. apply Hep.
    - apply all_zero_new_table. }
  unfold Sarsa.train, Sarsamax.train, ExpectedSarsa.train.
  split; [| split]; apply Hgen; intros e w0 x w1 Hep.
  - apply (sarsa_episode_preserves all_zero all_zero_touch g e alpha gamma
             fuel env w0 w1 x); [| exact Hep].
    intros state action next d0 d' H.
    apply sarsa_assign_inv in H as (t & d1 & _ & Hstep).
    by apply (td_step_all_zero g alpha gamma state action d0 d1 d' t).
  - apply (sarsamax_episode_preserves all_zero all_zero_touch g e alpha gamma
             fuel env w0 w1 x); [| exact Hep].
    intros state action next d0 d' H.
    apply sarsamax_assign_inv in H as (t & d1 & _ & Hstep).
    by apply (td_step_all_zero g alpha gamma state action d0 d1 d' t).
  - apply (expected_episode_preserves all_zero all_zero_touch g e alpha gamma
             fuel env w0 w1 x); [| exact Hep].
    intros nA state action next d0 d' H.
    apply expected_assign_inv in H as (t & d1 & _ & Hstep).
    by apply (td_step_all_zero g alpha gamma state action d0 d1 d' t).
Qed.

Lemma zero_alpha_learns_nothing_witness :
  0 == 0 /\
  returns (Sarsa.train 5 (corridor (-1)) {| reward := -1 |} 3 1 (1#100)
             (9#10) 0 1 1 (corridor_world (new_table 0))) /\
  returns_all_zero
    (Sarsa.train 5 (corridor (-1)) {| reward := -1 |} 3 1 (1#100) (9#10) 0 1 1
       (corridor_world (new_table 0))).
Proof.
  split; [reflexivity |]. split; [by vm_compute |].
  exact (proj1 (zero_alpha_learns_nothing 5 (corridor (-1)) {| reward := -1 |}
                  3 1 (1#100) (9#10) 0 1 1 (corridor_world (new_table 0))
                  (Qeq_refl 0))).
Defined.
